(** * Wallet tracker and user ranking panel: a shallow embedding

    The development follows the TypeScript sources:
    - [src/unnamed/part_001]: the batched wallet-history fetch
      (module [WalletTrackerBatched]) and the conditionals of the markup it
      returns (module [WalletView]);
    - [src/app/components/WalletTracker.tsx]: the single-round fetch
      (module [WalletTrackerSimple]) and the swap filter of its first
      revision (module [WalletTrackerSwaps]);
    - [src/app/components/UserSidebar.tsx]: the metric popover and the
      ranking of users (module [UserSidebar]), the per-user popover and the
      rows of the list (modules [UserPopover] and [UserRow]), and an older
      revision of the wallet tracker whose classifier scans the log text for
      keywords (module [WalletTrackerHeuristic]).

    JavaScript numbers that carry lamports or SOL amounts are IEEE 754
    binary64 values and are modelled by Rocq's primitive floats; numbers the
    sources only use as integers (block times, metric values, ranks) are
    modelled by [Z].  Strings are byte strings: a JavaScript string whose
    code units are all below 128 is the string of these bytes, and the
    statements that depend on letter case or on character classes are made
    for such text ([asciiText]). *)

From Stdlib Require Import ZArith Floats Ascii String.
From stdpp Require Import base option list sorting strings gmap pretty.

Open Scope Z_scope.

(** ** The JavaScript runtime the sources rely on *)

Module Js.

(** [s.includes(search)]: [search] occurs in [s] as a contiguous
    substring (case-sensitive). *)
Fixpoint includes (s search : string) : bool :=
  String.prefix search s
  || match s with
     | EmptyString => false
     | String _ s' => includes s' search
     end.

(** [parts.join(sep)]. *)
Fixpoint join (sep : string) (parts : list string) : string :=
  match parts with
  | [] => EmptyString
  | [p] => p
  | p :: rest => p +:+ sep +:+ join sep rest
  end.

(** [toLowerCase] on the ASCII range: [A-Z] is mapped to [a-z] and every
    other byte is kept.  On text whose code units are all below 128 this is
    [String.prototype.toLowerCase]; cased letters outside that range are
    not modelled. *)
Definition lowerAscii (c : ascii) : ascii :=
  let n := N_of_ascii c in
  if ((65 <=? n) && (n <=? 90))%N then ascii_of_N (n + 32) else c.

Fixpoint toLowerCase (s : string) : string :=
  match s with
  | EmptyString => EmptyString
  | String c s' => String (lowerAscii c) (toLowerCase s')
  end.

(** [Array.prototype.includes] on an array of strings. *)
Definition arrayIncludes (l : list string) (x : string) : bool :=
  existsb (String.eqb x) l.

(** [Array.prototype.sort(comparefn)].  ECMAScript requires the sort to be
    stable: [comparefn a b <= 0] keeps [a], which came first, before [b].
    The model is the insertion sort with that property; for the comparators
    of the sources, which subtract integer keys, every stable sort returns
    the same list ([JsFacts.sort_unique]). *)
Section Sort.
Context {A : Type} (comparefn : A -> A -> Z).

Fixpoint sortInsert (x : A) (sorted : list A) : list A :=
  match sorted with
  | [] => [x]
  | y :: rest =>
      if comparefn x y <=? 0 then x :: y :: rest
      else y :: sortInsert x rest
  end.

Fixpoint sort (l : list A) : list A :=
  match l with
  | [] => []
  | x :: rest => sortInsert x (sort rest)
  end.
End Sort.

(** [Array.prototype.slice(from, to)] for in-range, non-negative bounds. *)
Definition slice {A : Type} (l : list A) (from to : nat) : list A :=
  take (to - from)%nat (drop from l).

(** Descending by [key]: no later element has a larger key. *)
Definition descendingBy {A : Type} (key : A -> Z) : list A -> Prop :=
  StronglySorted (fun a b => key b <= key a).

(** The elements whose key is [v], in the order of the list. *)
Definition withKey {A : Type} (key : A -> Z) (v : Z) (l : list A) : list A :=
  List.filter (fun x => key x =? v) l.

End Js.

(** ** Numbers: [Number.prototype.toFixed] on binary64 values *)

(** What the host supplies and the sources do not define: the locale's
    rendering of a date (argument: milliseconds since the epoch) and
    [Number::toString], which [toFixed] falls back to for magnitudes of
    [1e21] and more. *)
Record Host := {
  dateToLocaleString : Z -> string;
  numberToString : float -> string
}.

Module JsNumber.

Fixpoint zeros (n : nat) : string :=
  match n with
  | O => EmptyString
  | S n' => String "0" (zeros n')
  end.

(** The integer [n] for which [n / 10^f - m * 2^e] is as close to zero as
    possible, the larger one when there are two. *)
Definition roundHalfUp (m : positive) (e : Z) (f : nat) : Z :=
  let scaled := Z.pos m * 10 ^ Z.of_nat f in
  if 0 <=? e then scaled * 2 ^ e
  else (2 * scaled + 2 ^ (- e)) / (2 * 2 ^ (- e)).

(** [m * 2^e >= 10^21]. *)
Definition atLeast1e21 (m : positive) (e : Z) : bool :=
  if 0 <=? e then 10 ^ 21 <=? Z.pos m * 2 ^ e
  else 10 ^ 21 * 2 ^ (- e) <=? Z.pos m.

(** The decimal digits of [n] with a point before the last [f] of them,
    zero-padded on the left to [f + 1] digits. *)
Definition fixedDigits (n : Z) (f : nat) : string :=
  let m := pretty (Z.to_N n) in
  if (f =? 0)%nat then m
  else
    let k := String.length m in
    let m' := if (k <=? f)%nat then zeros (f + 1 - k) +:+ m else m in
    let k' := String.length m' in
    String.substring 0 (k' - f) m' +:+ "." +:+ String.substring (k' - f) f m'.

(** [x.toFixed(f)] for [0 <= f <= 100], following ECMAScript: the exact
    value of the double is rounded, not its shortest decimal rendering. *)
Definition toFixed (h : Host) (x : float) (f : nat) : string :=
  match Prim2SF x with
  | S754_nan => "NaN"
  | S754_infinity false => "Infinity"
  | S754_infinity true => "-Infinity"
  | S754_zero _ => fixedDigits 0 f
  | S754_finite sign m e =>
      let s := if sign then "-" else "" in
      if atLeast1e21 m e then s +:+ numberToString h (PrimFloat.abs x)
      else s +:+ fixedDigits (roundHalfUp m e f) f
  end.

(** [ToNumber] of an array read: an index past the end reads [undefined],
    which converts to [NaN]. *)
Definition ofLookup (o : option float) : float := default nan o.

(** [x !== 0]: [NaN] differs from zero, both signed zeros do not. *)
Definition isNonZero (x : float) : bool := negb (x =? 0)%float.

End JsNumber.

(** ** The upstream RPC collaborator and the data it returns *)

Record JsError := { message : string }.

(** What a call into the SDK produces: a value, or a thrown error. *)
Inductive Result (A : Type) : Type :=
| Ok (a : A)
| Throw (e : JsError).
Arguments Ok {A} a.
Arguments Throw {A} e.

Definition PublicKey := string.

Module Sdk.

(** [TransactionError = {} | string]; [null] is the absence of an error. *)
Inductive TransactionError :=
| ErrObject
| ErrString (s : string).

Record AccountInfo := { lamports : float }.

Record ConfirmedSignatureInfo := {
  signature : string;
  blockTime : option Z;
  err : option TransactionError
}.

(** Instructions are passed through untouched. *)
Record Instruction := { programId : string; data : string }.

Record InnerInstructions := { instructions : list Instruction }.

Record ParsedMessageAccount := { pubkey : string }.

Record ParsedMessage := {
  accountKeys : list ParsedMessageAccount;
  messageInstructions : list Instruction
}.

Record ParsedTransactionMeta := {
  metaErr : option TransactionError;
  logMessages : option (list string);
  preBalances : option (list float);
  postBalances : option (list float);
  innerInstructions : option (list InnerInstructions)
}.

(** [message] stands for [tx.transaction?.message]: [None] when the
    transaction or its message is absent. *)
Record ParsedTransactionWithMeta := {
  meta : option ParsedTransactionMeta;
  message : option ParsedMessage
}.

(** The constructor of [PublicKey] and the connection's requests. *)
Record Rpc := {
  newPublicKey : string -> Result PublicKey;
  getAccountInfo : PublicKey -> Result (option AccountInfo);
  getSignaturesForAddress :
    PublicKey -> Z -> Result (list ConfirmedSignatureInfo);
  getConfirmedSignaturesForAddress2 :
    PublicKey -> Z -> Result (list ConfirmedSignatureInfo);
  getParsedTransaction : string -> Result (option ParsedTransactionWithMeta)
}.

End Sdk.

Definition LAMPORTS_PER_SOL : float := 1000000000%float.

(** JavaScript truthiness of an [err] field. *)
Definition truthyErr (e : option Sdk.TransactionError) : bool :=
  match e with
  | None => false
  | Some Sdk.ErrObject => true
  | Some (Sdk.ErrString s) => negb (String.eqb s "")
  end.

(** Truthiness of an optional integer, and [x || 0]. *)
Definition truthyNum (x : option Z) : bool :=
  match x with
  | Some t => negb (t =? 0)
  | None => false
  end.

Definition orZero (x : option Z) : Z := default 0 x.

(** ** The structural classifier (part_001 and WalletTracker.tsx) *)

Record BalanceChange := { account : string; change : string }.

Inductive TransactionType :=
| Unknown (description : string)
| Details (description : string) (accounts : list string)
    (balanceChanges : list BalanceChange) (logs : list string)
    (parsedInstructions : list Sdk.Instruction).

Module Structural.

(** The callback of [accounts.map]: the entry of one account, or [null]. *)
Definition balanceChangeOf (h : Host) (preBalances postBalances : list float)
    (index : nat) (account : string) : option BalanceChange :=
  let pre := (JsNumber.ofLookup (preBalances !! index) / LAMPORTS_PER_SOL)%float in
  let post := (JsNumber.ofLookup (postBalances !! index) / LAMPORTS_PER_SOL)%float in
  let change := (post - pre)%float in
  if JsNumber.isNonZero change then
    Some {| account := account; change := JsNumber.toFixed h change 4 |}
  else None.

Definition balanceChangesOf (h : Host) (preBalances postBalances : list float)
    (accounts : list string) : list BalanceChange :=
  omap id (imap (balanceChangeOf h preBalances postBalances) accounts).

Definition parseTransactionType (h : Host) (tx : Sdk.ParsedTransactionWithMeta)
    : TransactionType :=
  match Sdk.meta tx, Sdk.message tx with
  | Some m, Some msg =>
      let instructions := Sdk.messageInstructions msg in
      let parsedInstructions :=
        match Sdk.innerInstructions m with
        | Some (first :: _) => Sdk.instructions first
        | _ => instructions
        end in
      let logs := default [] (Sdk.logMessages m) in
      let accounts := map Sdk.pubkey (Sdk.accountKeys msg) in
      let preBalances := default [] (Sdk.preBalances m) in
      let postBalances := default [] (Sdk.postBalances m) in
      let balanceChanges :=
        balanceChangesOf h preBalances postBalances accounts in
      Details "Transaction Details" accounts balanceChanges
        (List.filter (fun log => negb (Js.includes log "Program log:")) logs)
        parsedInstructions
  | _, _ => Unknown "Unknown Transaction"
  end.

End Structural.

(** The difference the classifier computes for the account at [index]: both
    balances are divided by [LAMPORTS_PER_SOL] in binary64 and then
    subtracted; a missing balance makes it [NaN]. *)
Definition changeAt (preBalances postBalances : list float) (index : nat) : float :=
  (JsNumber.ofLookup (postBalances !! index) / LAMPORTS_PER_SOL
   - JsNumber.ofLookup (preBalances !! index) / LAMPORTS_PER_SOL)%float.

(** The entry [e] is the one of the account at [index]. *)
Definition entryOf (h : Host) (preBalances postBalances : list float)
    (accounts : list string) (e : BalanceChange) (index : nat) : Prop :=
  accounts !! index = Some (account e)
  /\ change e = JsNumber.toFixed h (changeAt preBalances postBalances index) 4.

(** The indices below [n] whose difference is not zero, in increasing
    order. *)
Definition changedIndices (preBalances postBalances : list float) (n : nat)
    : list nat :=
  List.filter (fun i => JsNumber.isNonZero (changeAt preBalances postBalances i))
    (seq 0 n).

Definition balanceChangesIn (t : TransactionType) : list BalanceChange :=
  match t with
  | Details _ _ balanceChanges _ _ => balanceChanges
  | Unknown _ => []
  end.

(** ** Component state and the effects of a fetch *)

Record Trade := {
  signature : string;
  timestamp : string;
  blockTime : option Z;       (* absent in the single-round variant *)
  successful : bool;
  type : TransactionType
}.

Record State := {
  addressInput : string;
  balance : option float;
  trades : list Trade;
  loading : bool;
  error : string
}.

(** What a fetch does besides updating the component state, in the order in
    which it is started. *)
Inductive Effect :=
| CallGetAccountInfo (pubKey : PublicKey)
| CallGetSignaturesForAddress (pubKey : PublicKey) (limit : Z)
| CallGetConfirmedSignaturesForAddress2 (pubKey : PublicKey) (limit : Z)
| CallGetParsedTransaction (sig : string)
| Sleep (ms : Z)
| ConsoleError (label : string) (e : JsError).

Definition isNetworkCall (e : Effect) : bool :=
  match e with
  | CallGetAccountInfo _ | CallGetSignaturesForAddress _ _
  | CallGetConfirmedSignaturesForAddress2 _ _ | CallGetParsedTransaction _ => true
  | Sleep _ | ConsoleError _ _ => false
  end.

Record World := { ui : State; effects : list Effect }.

(** A computation reads and updates the world and returns or throws. *)
Definition M (A : Type) : Type := World -> Result A * World.

#[global] Instance M_ret : MRet M := fun A a w => (Ok a, w).

#[global] Instance M_bind : MBind M := fun A B f m w =>
  match m w with
  | (Ok a, w') => f a w'
  | (Throw e, w') => (Throw e, w')
  end.

Definition liftResult {A} (r : Result A) : M A := fun w => (r, w).

Definition emit (e : Effect) : M unit := fun w =>
  (Ok tt, {| ui := ui w; effects := effects w ++ [e] |}).

(** An awaited request: it is recorded, then it resolves or rejects. *)
Definition call {A} (e : Effect) (r : Result A) : M A :=
  emit e;; liftResult r.

Definition modifyUi (f : State -> State) : M unit := fun w =>
  (Ok tt, {| ui := f (ui w); effects := effects w |}).

Definition setBalance (b : option float) : M unit :=
  modifyUi (fun s => {| addressInput := addressInput s; balance := b;
                        trades := trades s; loading := loading s;
                        error := error s |}).

Definition setTrades (t : list Trade) : M unit :=
  modifyUi (fun s => {| addressInput := addressInput s; balance := balance s;
                        trades := t; loading := loading s; error := error s |}).

Definition setLoading (l : bool) : M unit :=
  modifyUi (fun s => {| addressInput := addressInput s; balance := balance s;
                        trades := trades s; loading := l; error := error s |}).

Definition setError (e : string) : M unit :=
  modifyUi (fun s => {| addressInput := addressInput s; balance := balance s;
                        trades := trades s; loading := loading s; error := e |}).

(** [try { body } catch (err) { handler err }]. *)
Definition tryCatch {A} (body : M A) (handler : JsError -> M A) : M A := fun w =>
  match body w with
  | (Ok a, w') => (Ok a, w')
  | (Throw e, w') => handler e w'
  end.

(** [try { body } finally { cleanup }] for a cleanup that does not throw. *)
Definition finally {A} (body : M A) (cleanup : M unit) : M A := fun w =>
  let '(r, w') := body w in (r, (cleanup w').2).

(** [Promise.all(items.map(f))]: the requests are started in array order
    and the results are collected in array order, whatever the order in
    which they complete.  The callbacks of the sources catch their own
    errors, so none of them rejects.  The model runs the callbacks one
    after another, so the console line of a rejected request is recorded
    before the next request of the same round, whereas the program starts
    every request of a round before any of them settles; the statements
    below speak of the requests and pauses among themselves and count the
    console lines, and do not depend on where a console line stands. *)
Definition promiseAll {A B} (f : A -> M B) (items : list A) : M (list B) :=
  mapM f items.

(** ** The batched wallet-history fetch (part_001) *)

Module WalletTrackerBatched.

Definition batchSize : nat := 25.

(** The record built from a signature and its transaction body. *)
Definition toTrade (h : Host) (sig : Sdk.ConfirmedSignatureInfo)
    (tx : Sdk.ParsedTransactionWithMeta) : Trade :=
  {| signature := Sdk.signature sig;
     timestamp :=
       if truthyNum (Sdk.blockTime sig)
       then dateToLocaleString h (orZero (Sdk.blockTime sig) * 1000)
       else "Unknown time";
     blockTime := Some (orZero (Sdk.blockTime sig));
     successful := negb (truthyErr (Sdk.err sig));
     type := Structural.parseTransactionType h tx |}.

(** The callback of [batch.map]: one transaction body is requested and
    turned into a record; a rejected request or an absent body gives
    [null]. *)
Definition fetchTransaction (h : Host) (rpc : Sdk.Rpc)
    (sig : Sdk.ConfirmedSignatureInfo) : M (option Trade) :=
  tryCatch
    (tx ← call (CallGetParsedTransaction (Sdk.signature sig))
               (Sdk.getParsedTransaction rpc (Sdk.signature sig));
     match tx with
     | None => mret None
     | Some tx => mret (Some (toTrade h sig tx))
     end)
    (fun err => emit (ConsoleError "Error fetching transaction:" err);; mret None).

(** The [for] loop over the rounds, from index [i] on.  Every round moves
    [i] forward by [batchSize], so [fuel] rounds are enough whenever
    [length allSignatures - i <= fuel]. *)
Fixpoint batchLoop (h : Host) (rpc : Sdk.Rpc)
    (allSignatures : list Sdk.ConfirmedSignatureInfo)
    (fuel i : nat) (allTransactions : list Trade) : M (list Trade) :=
  if decide (i < length allSignatures)%nat then
    match fuel with
    | O => mret allTransactions
    | S fuel' =>
        let batch := Js.slice allSignatures i (i + batchSize) in
        batchTransactions ← promiseAll (fetchTransaction h rpc) batch;
        let allTransactions' := allTransactions ++ omap id batchTransactions in
        (if decide (i + batchSize < length allSignatures)%nat
         then emit (Sleep 100) else mret tt);;
        batchLoop h rpc allSignatures fuel' (i + batchSize) allTransactions'
    end
  else mret allTransactions.

Definition byBlockTimeDesc (a b : Trade) : Z :=
  orZero (blockTime b) - orZero (blockTime a).

(** The body of the [try] block.  The records pushed to [allTransactions]
    are never [null], so the filter before the sort keeps all of them. *)
Definition fetchBody (h : Host) (rpc : Sdk.Rpc) (addressInput : string) : M unit :=
  setLoading true;;
  setError "";;
  setTrades [];;
  pubKey ← liftResult (Sdk.newPublicKey rpc addressInput);
  accountInfo ← call (CallGetAccountInfo pubKey) (Sdk.getAccountInfo rpc pubKey);
  match accountInfo with
  | Some info => setBalance (Some (Sdk.lamports info / LAMPORTS_PER_SOL)%float)
  | None => setBalance (Some 0%float)
  end;;
  allSignatures ← call (CallGetConfirmedSignaturesForAddress2 pubKey 1000)
                       (Sdk.getConfirmedSignaturesForAddress2 rpc pubKey 1000);
  if (length allSignatures =? 0)%nat then mret tt
  else
    allTransactions ←
      batchLoop h rpc allSignatures (length allSignatures) 0 [];
    setTrades (Js.sort byBlockTimeDesc allTransactions).

Definition fetchWalletData (h : Host) (rpc : Sdk.Rpc) : M unit := fun w =>
  finally
    (tryCatch (fetchBody h rpc (addressInput (ui w)))
       (fun err =>
          emit (ConsoleError "Wallet Data Error:" err);;
          setError (message err);;
          setBalance None;;
          setTrades []))
    (setLoading false) w.

End WalletTrackerBatched.

(** ** The single-round fetch (WalletTracker.tsx) *)

Module WalletTrackerSimple.

(** The record built from a signature and its transaction body;
    [tx.meta?.err === null] is false when [meta] is absent. *)
Definition toTrade (h : Host) (sig : Sdk.ConfirmedSignatureInfo)
    (tx : Sdk.ParsedTransactionWithMeta) : Trade :=
  {| signature := Sdk.signature sig;
     timestamp :=
       if truthyNum (Sdk.blockTime sig)
       then dateToLocaleString h (orZero (Sdk.blockTime sig) * 1000)
       else "Unknown time";
     blockTime := None;
     successful :=
       match Sdk.meta tx with
       | Some m => bool_decide (Sdk.metaErr m = None)
       | None => false
       end;
     type := Structural.parseTransactionType h tx |}.

Definition fetchTransaction (h : Host) (rpc : Sdk.Rpc)
    (sig : Sdk.ConfirmedSignatureInfo) : M (option Trade) :=
  tryCatch
    (tx ← call (CallGetParsedTransaction (Sdk.signature sig))
               (Sdk.getParsedTransaction rpc (Sdk.signature sig));
     match tx with
     | None => mret None
     | Some tx => mret (Some (toTrade h sig tx))
     end)
    (fun err => emit (ConsoleError "Error fetching transaction:" err);; mret None).

Definition fetchBody (h : Host) (rpc : Sdk.Rpc) (addressInput : string) : M unit :=
  setLoading true;;
  setError "";;
  pubKey ← liftResult (Sdk.newPublicKey rpc addressInput);
  accountInfo ← call (CallGetAccountInfo pubKey) (Sdk.getAccountInfo rpc pubKey);
  match accountInfo with
  | Some info => setBalance (Some (Sdk.lamports info / LAMPORTS_PER_SOL)%float)
  | None => setBalance (Some 0%float)
  end;;
  signatures ← call (CallGetSignaturesForAddress pubKey 10)
                    (Sdk.getSignaturesForAddress rpc pubKey 10);
  transactions ← promiseAll (fetchTransaction h rpc) signatures;
  setTrades (omap id transactions).

Definition fetchWalletData (h : Host) (rpc : Sdk.Rpc) : M unit := fun w =>
  finally
    (tryCatch (fetchBody h rpc (addressInput (ui w)))
       (fun err =>
          emit (ConsoleError "Wallet Data Error:" err);;
          setError (message err);;
          setBalance None;;
          setTrades []))
    (setLoading false) w.

End WalletTrackerSimple.

(** ** What the statements about a fetch refer to *)

(** The record a signature ends up as in the batched fetch: [None] when its
    body is absent or its request is rejected. *)
Definition resolved (h : Host) (rpc : Sdk.Rpc)
    (sig : Sdk.ConfirmedSignatureInfo) : option Trade :=
  match Sdk.getParsedTransaction rpc (Sdk.signature sig) with
  | Ok (Some tx) => Some (WalletTrackerBatched.toTrade h sig tx)
  | _ => None
  end.

(** The body of the transaction behind [sig] resolves. *)
Definition resolves (rpc : Sdk.Rpc) (sig : Sdk.ConfirmedSignatureInfo) : bool :=
  match Sdk.getParsedTransaction rpc (Sdk.signature sig) with
  | Ok (Some _) => true
  | _ => false
  end.

(** The request for the body of the transaction behind [sig]. *)
Definition requestOf (sig : Sdk.ConfirmedSignatureInfo) : Effect :=
  CallGetParsedTransaction (Sdk.signature sig).

Definition isBodyRequest (e : Effect) : bool :=
  match e with
  | CallGetParsedTransaction _ => true
  | _ => false
  end.

(** The error of the first aborting step of the batched fetch, if one of
    them fails: the address decode, the balance request, the signature-list
    request. *)
Definition abortingError (rpc : Sdk.Rpc) (address : string) : option JsError :=
  match Sdk.newPublicKey rpc address with
  | Throw e => Some e
  | Ok pubKey =>
      match Sdk.getAccountInfo rpc pubKey with
      | Throw e => Some e
      | Ok _ =>
          match Sdk.getConfirmedSignaturesForAddress2 rpc pubKey 1000 with
          | Throw e => Some e
          | Ok _ => None
          end
      end
  end.

(** The component state the [catch] block leaves behind. *)
Definition failedState (s : State) (e : JsError) : State :=
  {| addressInput := addressInput s; balance := None; trades := [];
     loading := false; error := message e |}.

(** The balance shown for an account: [lamports / LAMPORTS_PER_SOL], and 0
    for an absent account. *)
Definition balanceOf (accountInfo : option Sdk.AccountInfo) : float :=
  match accountInfo with
  | Some info => (Sdk.lamports info / LAMPORTS_PER_SOL)%float
  | None => 0%float
  end.

(** The effects a computation adds to those of the world it starts in. *)
Definition addedEffects (before after : World) : list Effect :=
  drop (length (effects before)) (effects after).

(** *** Example data *)

Definition exampleHost : Host :=
  {| dateToLocaleString := fun ms => pretty ms; numberToString := fun _ => "" |}.

Definition bareTx : Sdk.ParsedTransactionWithMeta :=
  {| Sdk.meta := None; Sdk.message := None |}.

(** Five signatures, the second without a block time; the body of [s4]
    cannot be fetched; every address but [wallet] is malformed. *)
Definition exampleRpc : Sdk.Rpc :=
  {| Sdk.newPublicKey := fun a =>
       if String.eqb a "wallet" then Ok a
       else Throw {| message := "Invalid public key input" |};
     Sdk.getAccountInfo := fun _ => Ok None;
     Sdk.getSignaturesForAddress := fun _ _ => Ok [];
     Sdk.getConfirmedSignaturesForAddress2 := fun _ _ =>
       Ok [ {| Sdk.signature := "s1"; Sdk.blockTime := Some 5; Sdk.err := None |};
            {| Sdk.signature := "s2"; Sdk.blockTime := None; Sdk.err := None |};
            {| Sdk.signature := "s3"; Sdk.blockTime := Some 9; Sdk.err := None |};
            {| Sdk.signature := "s4"; Sdk.blockTime := Some 7; Sdk.err := None |};
            {| Sdk.signature := "s5"; Sdk.blockTime := Some 5; Sdk.err := None |} ];
     Sdk.getParsedTransaction := fun sig =>
       if String.eqb sig "s4" then Throw {| message := "429 Too Many Requests" |}
       else Ok (Some bareTx) |}.

(** The signature list cannot be fetched although the balance can. *)
Definition rejectingSignaturesRpc : Sdk.Rpc :=
  {| Sdk.newPublicKey := fun a => Ok a;
     Sdk.getAccountInfo := fun _ =>
       Ok (Some {| Sdk.lamports := 2500000000%float |});
     Sdk.getSignaturesForAddress := fun _ _ => Ok [];
     Sdk.getConfirmedSignaturesForAddress2 := fun _ _ =>
       Throw {| message := "failed to get signatures" |};
     Sdk.getParsedTransaction := fun _ => Ok None |}.

(** A transaction of the accounts [alice] and [bob] with the given lamport
    balances before and after. *)
Definition transferTx (pre post : list float) : Sdk.ParsedTransactionWithMeta :=
  {| Sdk.meta :=
       Some {| Sdk.metaErr := None; Sdk.logMessages := None;
               Sdk.preBalances := Some pre; Sdk.postBalances := Some post;
               Sdk.innerInstructions := None |};
     Sdk.message :=
       Some {| Sdk.accountKeys := [ {| Sdk.pubkey := "alice" |};
                                    {| Sdk.pubkey := "bob" |} ];
               Sdk.messageInstructions := [] |} |}.

(** A transaction that carries nothing but log messages. *)
Definition txWithLogs (logMessages : list string) : Sdk.ParsedTransactionWithMeta :=
  {| Sdk.meta :=
       Some {| Sdk.metaErr := None; Sdk.logMessages := Some logMessages;
               Sdk.preBalances := None; Sdk.postBalances := None;
               Sdk.innerInstructions := None |};
     Sdk.message := None |}.

(** A component that shows the balance and the trade of an earlier fetch. *)
Definition worldOf (address : string) : World :=
  {| ui := {| addressInput := address; balance := Some 1%float;
              trades := [ {| signature := "s0"; timestamp := "Unknown time";
                             blockTime := Some 0; successful := true;
                             type := Unknown "Unknown Transaction" |} ];
              loading := false; error := "" |};
     effects := [] |}.

(** ** The keyword classifier (older wallet tracker, UserSidebar.tsx) *)

Module WalletTrackerHeuristic.

Definition isDigit (c : ascii) : bool :=
  let n := N_of_ascii c in ((48 <=? n) && (n <=? 57))%N.

(** [\s] on the code units below 128: tab, line feed, vertical tab, form
    feed, carriage return and space.  The white space of JavaScript outside
    that range (the no-break space and the other Unicode spaces) is not
    modelled. *)
Definition isSpace (c : ascii) : bool :=
  let n := N_of_ascii c in (((9 <=? n) && (n <=? 13)) || (n =? 32))%N.

(** [\w]: letters, digits and the underscore. *)
Definition isWord (c : ascii) : bool :=
  let n := N_of_ascii c in
  (((48 <=? n) && (n <=? 57)) || ((65 <=? n) && (n <=? 90))
   || ((97 <=? n) && (n <=? 122)) || (n =? 95))%N.

(** A backtracking matcher in continuation style: [k consumed rest]
    matches what follows in the pattern. *)
Section Backtracking.
Context {R : Type}.

(** [X*], greedy: one more character first, fewer when what follows
    fails. *)
Fixpoint star (p : ascii -> bool) (consumed l : list ascii)
    (k : list ascii -> list ascii -> option R) : option R :=
  match l with
  | c :: l' =>
      if p c then
        match star p (consumed ++ [c]) l' k with
        | Some r => Some r
        | None => k consumed l
        end
      else k consumed l
  | [] => k consumed l
  end.

(** [X+], greedy. *)
Definition plus (p : ascii -> bool) (l : list ascii)
    (k : list ascii -> list ascii -> option R) : option R :=
  match l with
  | c :: l' => if p c then star p [c] l' k else None
  | [] => None
  end.

(** [c?], greedy. *)
Definition optional (c : ascii) (l : list ascii)
    (k : list ascii -> list ascii -> option R) : option R :=
  match l with
  | c' :: l' =>
      if Ascii.eqb c c' then
        match k [c'] l' with
        | Some r => Some r
        | None => k [] l
        end
      else k [] l
  | [] => k [] l
  end.
End Backtracking.

(** A literal under the [i] flag: the text it matches and the rest. *)
Fixpoint literal (lit l : list ascii) : option (list ascii * list ascii) :=
  match lit, l with
  | [], _ => Some ([], l)
  | a :: lit', c :: l' =>
      if Ascii.eqb (Js.lowerAscii a) (Js.lowerAscii c) then
        match literal lit' l' with
        | Some (m, rest) => Some (c :: m, rest)
        | None => None
        end
      else None
  | _ :: _, [] => None
  end.

(** [(SOL|USDC|USDT|RAY|SRM|[\w]+)] at the end of the pattern: the first
    alternative that matches. *)
Definition tokenSymbol (l : list ascii) : option (list ascii * list ascii) :=
  let alternatives :=
    map list_ascii_of_string ["SOL"; "USDC"; "USDT"; "RAY"; "SRM"] in
  match omap (fun lit => literal lit l) alternatives with
  | r :: _ => Some r
  | [] => plus isWord l (fun w rest => Some (w, rest))
  end.

(** One match of [amountPattern] at the head of [l]: the first capture is
    one or more digits, an optional dot and further digits; optional white
    space follows; the second capture is the token symbol.  The result is
    the two captures and what follows the match. *)
Definition matchAmount (l : list ascii) : option (string * string * list ascii) :=
  plus isDigit l (fun d1 r1 =>
  optional "."%char r1 (fun dot r2 =>
  star isDigit [] r2 (fun d2 r3 =>
  star isSpace [] r3 (fun _ r4 =>
    match tokenSymbol r4 with
    | Some (sym, r5) =>
        Some (string_of_list_ascii (d1 ++ dot ++ d2),
              string_of_list_ascii sym, r5)
    | None => None
    end)))).

(** [[...logs.matchAll(amountPattern)]]: the matches from left to right,
    each search resuming where the previous match ended.  A match consumes
    at least one character, so [length l] steps are enough. *)
Fixpoint matchAllFrom (fuel : nat) (l : list ascii) : list (string * string) :=
  match fuel with
  | O => []
  | S fuel' =>
      match matchAmount l with
      | Some (amount, sym, rest) => (amount, sym) :: matchAllFrom fuel' rest
      | None =>
          match l with
          | [] => []
          | _ :: l' => matchAllFrom fuel' l'
          end
      end
  end.

Definition matchAll (logs : string) : list (string * string) :=
  let l := list_ascii_of_string logs in matchAllFrom (S (length l)) l.

Definition parseTransactionType (tx : Sdk.ParsedTransactionWithMeta) : string :=
  match Sdk.meta tx ≫= Sdk.logMessages with
  | None => "Unknown Transaction"
  | Some logMessages =>
      let logs := Js.join " " logMessages in
      if Js.includes logs "Swap" then
        match matchAll logs with
        | from :: to :: _ =>
            "Swapped " +:+ from.1 +:+ " " +:+ from.2
              +:+ " for " +:+ to.1 +:+ " " +:+ to.2
        | _ => "Token Swap"
        end
      else if Js.includes logs "Transfer" then
        match matchAll logs with
        | amount :: _ => "Transferred " +:+ amount.1 +:+ " " +:+ amount.2
        | [] => "Token Transfer"
        end
      else if Js.includes logs "Deposit" then "Deposit"
      else if Js.includes logs "Withdraw" then "Withdrawal"
      else if Js.includes logs "Stake" then "Staking"
      else if Js.includes logs "Create" then "Account Creation"
      else if Js.includes logs "Close" then "Account Closure"
      else "Transaction"
  end.

End WalletTrackerHeuristic.

(** The categories of the keyword classifier, and the keyword triggers in
    their priority order as the specification lists them. *)
Inductive Category :=
| SwapCategory | TransferCategory | DepositCategory | WithdrawalCategory
| StakingCategory | CreationCategory | ClosureCategory | GenericCategory.

Definition keywordPriority : list (string * Category) :=
  [ ("Swap", SwapCategory); ("Transfer", TransferCategory);
    ("Deposit", DepositCategory); ("Withdraw", WithdrawalCategory);
    ("Stake", StakingCategory); ("Create", CreationCategory);
    ("Close", ClosureCategory) ].

(** First match wins; no match is the generic category. *)
Definition categoryOfLogs (logs : string) : Category :=
  match List.find (fun kc => Js.includes logs kc.1) keywordPriority with
  | Some kc => kc.2
  | None => GenericCategory
  end.

(** The descriptions the classifier gives to a category. *)
Definition describes (c : Category) (description : string) : Prop :=
  match c with
  | SwapCategory =>
      description = "Token Swap"
      \/ exists a s b t,
           description
           = "Swapped " +:+ a +:+ " " +:+ s +:+ " for " +:+ b +:+ " " +:+ t
  | TransferCategory =>
      description = "Token Transfer"
      \/ exists a s, description = "Transferred " +:+ a +:+ " " +:+ s
  | DepositCategory => description = "Deposit"
  | WithdrawalCategory => description = "Withdrawal"
  | StakingCategory => description = "Staking"
  | CreationCategory => description = "Account Creation"
  | ClosureCategory => description = "Account Closure"
  | GenericCategory => description = "Transaction"
  end.

(** ** The user ranking panel (UserSidebar.tsx) *)

Module UserSidebar.

(** The ids of [METRIC_CATEGORIES], category by category. *)
Definition METRIC_CATEGORIES : list (string * list string) :=
  [ ("Engagement", ["timeSpent"; "engagement"; "retention"]);
    ("Revenue", ["revenue"; "arpu"; "mrr"]);
    ("Growth", ["customers"; "growth"; "conversion"]);
    ("Product", ["products"; "satisfaction"; "reviews"]) ].

Definition ALL_METRICS : list string :=
  mbind snd METRIC_CATEGORIES.

Record User := {
  id : Z;
  username : string;
  name : string;
  avatarUrl : string;
  rank : option Z;
  metrics : gmap string Z
}.

(** [user.metrics[key] || 0]. *)
Definition metricOrZero (key : string) (user : User) : Z :=
  orZero (metrics user !! key).

Definition matchesQuery (searchQuery : string) (user : User) : bool :=
  Js.includes (Js.toLowerCase (username user)) (Js.toLowerCase searchQuery)
  || Js.includes (Js.toLowerCase (name user)) (Js.toLowerCase searchQuery).

Definition byMetricDesc (activeSortDimension : string) (a b : User) : Z :=
  metricOrZero activeSortDimension b - metricOrZero activeSortDimension a.

Definition filteredAndSortedUsers (users : list User) (searchQuery : string)
    (activeSortDimension : string) : list User :=
  Js.sort (byMetricDesc activeSortDimension)
    (List.filter (matchesQuery searchQuery) users).

(** [{...user, rank: index + 1}]. *)
Definition withRank (index : nat) (user : User) : User :=
  {| id := id user; username := username user; name := name user;
     avatarUrl := avatarUrl user; rank := Some (Z.of_nat index + 1);
     metrics := metrics user |}.

Definition rankedUsers (users : list User) (searchQuery : string)
    (activeSortDimension : string) : list User :=
  imap withRank (filteredAndSortedUsers users searchQuery activeSortDimension).

(** *** The metric popover *)

Record Selection := {
  selectedDimensions : list string;
  activeSortDimension : string;
  open : bool
}.

Definition initialSelection : Selection :=
  {| selectedDimensions := ["timeSpent"]; activeSortDimension := "timeSpent";
     open := false |}.

(** The argument of [onCheckedChange]: [boolean | 'indeterminate']. *)
Inductive CheckedState := Checked | Unchecked | Indeterminate.

Definition isSelected (s : Selection) (metric : string) : bool :=
  Js.arrayIncludes (selectedDimensions s) metric.

Definition isSorting (s : Selection) (metric : string) : bool :=
  String.eqb (activeSortDimension s) metric.

Definition onCheckedChange (metric : string) (checked : CheckedState)
    (s : Selection) : Selection :=
  match checked with
  | Checked =>
      {| selectedDimensions := selectedDimensions s ++ [metric];
         activeSortDimension := activeSortDimension s; open := open s |}
  | _ =>
      if negb (String.eqb metric (activeSortDimension s)) then
        {| selectedDimensions :=
             List.filter (fun d => negb (String.eqb d metric))
               (selectedDimensions s);
           activeSortDimension := activeSortDimension s; open := open s |}
      else s
  end.

Definition checkboxDisabled (s : Selection) (metric : string) : bool :=
  isSorting s metric && (length (selectedDimensions s) =? 1)%nat.

Definition sortOnClick (metric : string) (s : Selection) : Selection :=
  {| selectedDimensions := selectedDimensions s;
     activeSortDimension := metric; open := false |}.

Definition sortDisabled (s : Selection) (metric : string) : bool :=
  negb (isSelected s metric).

(** One user action on the popover.  A disabled control fires no event;
    an enabled checkbox may report any [CheckedState]. *)
Inductive step (s : Selection) : Selection -> Prop :=
| step_check metric checked :
    metric ∈ ALL_METRICS ->
    checkboxDisabled s metric = false ->
    step s (onCheckedChange metric checked s)
| step_sort metric :
    metric ∈ ALL_METRICS ->
    sortDisabled s metric = false ->
    step s (sortOnClick metric s)
| step_open o :
    step s {| selectedDimensions := selectedDimensions s;
              activeSortDimension := activeSortDimension s; open := o |}.

Definition reachable (s : Selection) : Prop := rtc step initialSelection s.

(** What the specification allows: a metric may be deselected unless it is
    the sort metric and no other metric would remain selected. *)
Definition specAllowsDeselect (s : Selection) (metric : string) : bool :=
  negb (isSorting s metric
        && (length (List.filter (fun d => negb (String.eqb d metric))
                      (selectedDimensions s)) =? 0)%nat).

(** The sort metric is one of the displayed metrics. *)
Definition sortMetricSelected (s : Selection) : Prop :=
  activeSortDimension s ∈ selectedDimensions s.

(** Two users agree on every field but [rank]. *)
Definition sameButRank (a b : User) : Prop :=
  id a = id b /\ username a = username b /\ name a = name b
  /\ avatarUrl a = avatarUrl b /\ metrics a = metrics b.

(** The users of the specification's sort-stability example. *)
Definition exampleUsers : list User :=
  map (fun '(i, m) =>
         {| id := i; username := "user"; name := "User"; avatarUrl := "";
            rank := None; metrics := {[ "m" := m ]} |})
      [(1, 5); (2, 5); (3, 9)].

(** Two metrics displayed, the first of them the sort metric. *)
Definition twoDisplayed : Selection :=
  {| selectedDimensions := ["timeSpent"; "revenue"];
     activeSortDimension := "timeSpent"; open := true |}.

End UserSidebar.

(** ** Further parts of the sources *)

(** *** The per-user popover (UserSidebar.tsx) *)

Module UserPopover.
Import UserSidebar.

(** [categoryMetrics] of one category: the displayed metrics that belong to
    it, in the order of the display set.  A metric is identified by its id,
    so the lookup of the metric object behind an id is the identity. *)
Definition categoryMetrics (s : Selection) (category : string * list string)
    : list string :=
  List.filter (fun d => Js.arrayIncludes category.2 d) (selectedDimensions s).

(** The categories the popover renders: those with a displayed metric. *)
Definition renderedCategories (s : Selection) : list (string * list string) :=
  List.filter (fun category => negb (length (categoryMetrics s category) =? 0)%nat)
    METRIC_CATEGORIES.

End UserPopover.

(** *** A row of the user list (UserSidebar.tsx) *)

Module UserRow.
Import UserSidebar.

(** The medal on the avatar, [user.rank <= 3 && ...], by its colour class;
    an absent rank compares false. *)
Definition rankBadge (user : User) : option string :=
  match rank user with
  | Some r =>
      if r <=? 3 then
        Some (if r =? 1 then "bg-yellow-500"
              else if r =? 2 then "bg-gray-400"
              else "bg-amber-700")
      else None
  | None => None
  end.

Inductive Icon :=
| ClockIcon | CurrencyIcon | PeopleIcon | TrendIcon | SmileIcon | BagIcon
| StarIcon.

(** The icons in front of the value of the sort metric: one conditional
    per icon, in the order of the source. *)
Definition sortIcons (activeSortDimension : string) : list Icon :=
  let sortsBy metric := String.eqb activeSortDimension metric in
  (if sortsBy "timeSpent" then [ClockIcon] else [])
  ++ (if sortsBy "revenue" || sortsBy "arpu" || sortsBy "mrr"
      then [CurrencyIcon] else [])
  ++ (if sortsBy "customers" then [PeopleIcon] else [])
  ++ (if sortsBy "engagement" || sortsBy "growth" || sortsBy "conversion"
      then [TrendIcon] else [])
  ++ (if sortsBy "satisfaction" then [SmileIcon] else [])
  ++ (if sortsBy "products" then [BagIcon] else [])
  ++ (if sortsBy "reviews" then [StarIcon] else []).

End UserRow.

(** *** What the wallet tracker renders (part_001) *)

Module WalletView.

Record View := {
  buttonDisabled : bool;
  spinner : bool;
  errorBanner : option string;
  balanceCard : option string;
  tradeList : option (list Trade)
}.

(** The conditionals of the returned markup: the button is disabled while
    loading or when the input is empty; [error && ...] renders nothing for
    the empty string; the balance card needs a balance and the transaction
    list a non-empty [trades]. *)
Definition render (h : Host) (s : State) : View :=
  {| buttonDisabled := loading s || String.eqb (addressInput s) "";
     spinner := loading s;
     errorBanner := if String.eqb (error s) "" then None else Some (error s);
     balanceCard :=
       match balance s with
       | Some b => Some (JsNumber.toFixed h b 4 +:+ " SOL")
       | None => None
       end;
     tradeList :=
       if (length (trades s) =? 0)%nat then None else Some (trades s) |}.

End WalletView.

(** *** The swap filter of the first wallet tracker (WalletTracker.tsx) *)

Module WalletTrackerSwaps.

(** The callback of [msg => ...] in [logMessages.some]. *)
Definition mentionsSwap (msg : string) : bool :=
  Js.includes (Js.toLowerCase msg) "swap"
  || Js.includes (Js.toLowerCase msg) "exchange"
  || Js.includes (Js.toLowerCase msg) "trade".

(** The callback of [transactions.filter]: [undefined] is falsy, so a
    transaction without body, metadata or log messages is filtered out. *)
Definition isSwap (tx : option Sdk.ParsedTransactionWithMeta) : bool :=
  match (tx ≫= Sdk.meta) ≫= Sdk.logMessages with
  | Some logMessages => existsb mentionsSwap logMessages
  | None => false
  end.

End WalletTrackerSwaps.

(** *** What the further statements refer to *)

(** The component state a batched fetch ends in, from the address and the
    answers of the RPC alone. *)
Definition batchedOutcome (h : Host) (rpc : Sdk.Rpc) (address : string) : State :=
  let failed e :=
    {| addressInput := address; balance := None; trades := [];
       loading := false; error := message e |} in
  match Sdk.newPublicKey rpc address with
  | Throw e => failed e
  | Ok pubKey =>
      match Sdk.getAccountInfo rpc pubKey with
      | Throw e => failed e
      | Ok accountInfo =>
          match Sdk.getConfirmedSignaturesForAddress2 rpc pubKey 1000 with
          | Throw e => failed e
          | Ok allSignatures =>
              {| addressInput := address;
                 balance := Some (balanceOf accountInfo);
                 trades := Js.sort WalletTrackerBatched.byBlockTimeDesc
                             (omap (resolved h rpc) allSignatures);
                 loading := false; error := "" |}
          end
      end
  end.

(** The record a signature ends up as in the single-round fetch. *)
Definition resolvedSimple (h : Host) (rpc : Sdk.Rpc)
    (sig : Sdk.ConfirmedSignatureInfo) : option Trade :=
  match Sdk.getParsedTransaction rpc (Sdk.signature sig) with
  | Ok (Some tx) => Some (WalletTrackerSimple.toTrade h sig tx)
  | _ => None
  end.

(** The component state a single-round fetch ends in. *)
Definition simpleOutcome (h : Host) (rpc : Sdk.Rpc) (address : string) : State :=
  let failed e :=
    {| addressInput := address; balance := None; trades := [];
       loading := false; error := message e |} in
  match Sdk.newPublicKey rpc address with
  | Throw e => failed e
  | Ok pubKey =>
      match Sdk.getAccountInfo rpc pubKey with
      | Throw e => failed e
      | Ok accountInfo =>
          match Sdk.getSignaturesForAddress rpc pubKey 10 with
          | Throw e => failed e
          | Ok signatures =>
              {| addressInput := address;
                 balance := Some (balanceOf accountInfo);
                 trades := omap (resolvedSimple h rpc) signatures;
                 loading := false; error := "" |}
          end
      end
  end.

(** Body requests and pauses, the effects that make up the pacing. *)
Definition isRequestOrPause (e : Effect) : bool :=
  match e with
  | CallGetParsedTransaction _ | Sleep _ => true
  | _ => false
  end.

(** The consecutive rounds of at most [batchSize] signatures. *)
Fixpoint roundsOf (fuel : nat) (sigs : list Sdk.ConfirmedSignatureInfo)
    : list (list Sdk.ConfirmedSignatureInfo) :=
  match fuel with
  | O => []
  | S fuel' =>
      match sigs with
      | [] => []
      | _ :: _ =>
          take WalletTrackerBatched.batchSize sigs
          :: roundsOf fuel' (drop WalletTrackerBatched.batchSize sigs)
      end
  end.

Definition rounds (sigs : list Sdk.ConfirmedSignatureInfo)
    : list (list Sdk.ConfirmedSignatureInfo) :=
  roundsOf (length sigs) sigs.

(** The requests of the rounds with a pause of 100 ms between two rounds. *)
Fixpoint paced (rs : list (list Sdk.ConfirmedSignatureInfo)) : list Effect :=
  match rs with
  | [] => []
  | [r] => map requestOf r
  | r :: rest => map requestOf r ++ Sleep 100 :: paced rest
  end.

(** The scan of [matchAll] over a character list. *)
Definition scanAmounts (l : list ascii) : list (string * string) :=
  WalletTrackerHeuristic.matchAllFrom (S (length l)) l.

(** An occurrence of [amountPattern] at the head of [l], with the captures
    [amount] and [sym] and the text [rest] after it. *)
Definition amountOccurrence (l : list ascii) (amount sym : string)
    (rest : list ascii) : Prop :=
  exists d1 dot d2 ws s,
    l = d1 ++ dot ++ d2 ++ ws ++ s ++ rest
    /\ d1 <> []
    /\ Forall (fun c => WalletTrackerHeuristic.isDigit c = true) d1
    /\ (dot = [] \/ dot = ["."%char])
    /\ Forall (fun c => WalletTrackerHeuristic.isDigit c = true) d2
    /\ Forall (fun c => WalletTrackerHeuristic.isSpace c = true) ws
    /\ s <> []
    /\ Forall (fun c => WalletTrackerHeuristic.isWord c = true) s
    /\ amount = string_of_list_ascii (d1 ++ dot ++ d2)
    /\ sym = string_of_list_ascii s.

(** [t] occurs in [s] as a contiguous substring. *)
Definition substringOf (t s : string) : Prop :=
  exists before after, s = before +:+ t +:+ after.

(** All 256 characters. *)
Definition allAscii : list ascii := map ascii_of_nat (seq 0 256).

(** The pauses between two rounds. *)
Definition isPause (e : Effect) : bool :=
  match e with
  | Sleep _ => true
  | _ => false
  end.

(** The lines written to the console. *)
Definition isConsoleLine (e : Effect) : bool :=
  match e with
  | ConsoleError _ _ => true
  | _ => false
  end.

(** The request for the body of the transaction behind [sig] is rejected. *)
Definition rejects (rpc : Sdk.Rpc) (sig : Sdk.ConfirmedSignatureInfo) : bool :=
  match Sdk.getParsedTransaction rpc (Sdk.signature sig) with
  | Throw _ => true
  | Ok _ => false
  end.

(** A JavaScript string is a sequence of UTF-16 code units.  A string whose
    code units are all below 128 is represented by the string of these
    bytes, and on such text [Js.toLowerCase] and the character classes of
    the amount pattern are those of JavaScript; statements that depend on
    them are made for such text. *)
Definition asciiChars (l : list ascii) : Prop :=
  Forall (fun c => (N_of_ascii c < 128)%N) l.

Definition asciiText (s : string) : Prop :=
  asciiChars (list_ascii_of_string s).

(** What stops a run: the end of the text or a character outside the
    class. *)
Definition stopsAt (p : ascii -> bool) (l : list ascii) : Prop :=
  match l with
  | [] => True
  | c :: _ => p c = false
  end.

(** A text without a space character. *)
Definition noSpace (t : string) : Prop :=
  Forall (fun c => c <> " "%char) (list_ascii_of_string t).

(** The description of a category that names no amount. *)
Definition plainLabel (c : Category) : string :=
  match c with
  | SwapCategory => "Token Swap"
  | TransferCategory => "Token Transfer"
  | DepositCategory => "Deposit"
  | WithdrawalCategory => "Withdrawal"
  | StakingCategory => "Staking"
  | CreationCategory => "Account Creation"
  | ClosureCategory => "Account Closure"
  | GenericCategory => "Transaction"
  end.

(** The displayed metrics and the sort metric are metrics of
    [METRIC_CATEGORIES]. *)
Definition knownMetrics (s : UserSidebar.Selection) : Prop :=
  Forall (fun d => d ∈ UserSidebar.ALL_METRICS) (UserSidebar.selectedDimensions s)
  /\ UserSidebar.activeSortDimension s ∈ UserSidebar.ALL_METRICS.

(** The medals of the first three rows. *)
Definition medals : list string :=
  ["bg-yellow-500"; "bg-gray-400"; "bg-amber-700"].

(** The signature number [i], confirmed at second [i]. *)
Definition signatureNo (i : nat) : Sdk.ConfirmedSignatureInfo :=
  {| Sdk.signature := "sig" +:+ pretty i; Sdk.blockTime := Some (Z.of_nat i);
     Sdk.err := None |}.

(** A wallet with sixty signatures, of which the recent-signature request
    returns as many as its limit asks for; the body of [sig3] is absent and
    the request for the body of [sig5] is rejected. *)
Definition busyRpc : Sdk.Rpc :=
  {| Sdk.newPublicKey := fun a => Ok a;
     Sdk.getAccountInfo := fun _ =>
       Ok (Some {| Sdk.lamports := 2500000000%float |});
     Sdk.getSignaturesForAddress := fun _ limit =>
       Ok (map signatureNo (seq 0 (Nat.min 60 (Z.to_nat limit))));
     Sdk.getConfirmedSignaturesForAddress2 := fun _ _ =>
       Ok (map signatureNo (seq 0 60));
     Sdk.getParsedTransaction := fun sig =>
       if String.eqb sig "sig3" then Ok None
       else if String.eqb sig "sig5"
       then Throw {| message := "429 Too Many Requests" |}
       else Ok (Some bareTx) |}.

(** * Properties *)

(** ** The stable sort *)

Module JsFacts.

Section Descending.
Context {A : Type} (key : A -> Z).

Lemma withKey_cons_eq x l :
  Js.withKey key (key x) (x :: l) = x :: Js.withKey key (key x) l.
Proof. unfold Js.withKey. simpl. by rewrite Z.eqb_refl. Qed.

Lemma withKey_cons_ne v x l :
  key x <> v -> Js.withKey key v (x :: l) = Js.withKey key v l.
Proof.
  unfold Js.withKey. simpl. intros H. by destruct (Z.eqb_spec (key x) v).
Qed.

Lemma elem_of_withKey v x l : x ∈ Js.withKey key v l <-> x ∈ l /\ key x = v.
Proof.
  unfold Js.withKey. rewrite !list_elem_of_In, filter_In, Z.eqb_eq. done.
Qed.

Lemma descending_head_max x l y :
  Js.descendingBy key (x :: l) -> y ∈ x :: l -> key y <= key x.
Proof.
  unfold Js.descendingBy. intros Hs Hy.
  apply StronglySorted_cons in Hs as [Hx _].
  apply elem_of_cons in Hy as [->|Hy]; [lia|].
  by eapply Forall_forall in Hx.
Qed.

(** Two descending lists that agree on the elements of every key, order
    included, are equal: a stable sort has one possible result. *)
Lemma descending_stable_unique l1 l2 :
  Js.descendingBy key l1 -> Js.descendingBy key l2 ->
  (forall v, Js.withKey key v l1 = Js.withKey key v l2) ->
  l1 = l2.
Proof.
  revert l2. induction l1 as [|x l1 IH]; intros l2 H1 H2 Heq.
  - destruct l2 as [|y l2]; [done|].
    specialize (Heq (key y)). rewrite withKey_cons_eq in Heq. done.
  - destruct l2 as [|y l2].
    { specialize (Heq (key x)). rewrite withKey_cons_eq in Heq. done. }
    assert (Hxy : key x = key y).
    { apply Z.le_antisymm.
      - apply (descending_head_max y l2 x H2).
        eapply elem_of_withKey. rewrite <- Heq, withKey_cons_eq.
        apply list_elem_of_here.
      - apply (descending_head_max x l1 y H1).
        eapply elem_of_withKey. rewrite Heq, withKey_cons_eq.
        apply list_elem_of_here. }
    pose proof (Heq (key x)) as Hk.
    rewrite withKey_cons_eq, Hxy, withKey_cons_eq in Hk.
    injection Hk as -> Hk. f_equal.
    apply IH.
    + unfold Js.descendingBy in *. by apply StronglySorted_cons in H1 as [_ ?].
    + unfold Js.descendingBy in *. by apply StronglySorted_cons in H2 as [_ ?].
    + intros v. destruct (decide (key y = v)) as [<-|Hne]; [done|].
      specialize (Heq v). by rewrite !withKey_cons_ne in Heq.
Qed.

End Descending.

Section SortByKey.
Context {A : Type} (comparefn : A -> A -> Z) (key : A -> Z).
Hypothesis comparefn_key : forall a b, comparefn a b = key b - key a.

Lemma sortInsert_Permutation x l : Js.sortInsert comparefn x l ≡ₚ x :: l.
Proof.
  induction l as [|y l IH]; simpl; [done|].
  case_match; [done|]. rewrite IH. apply Permutation_swap.
Qed.

Lemma sort_Permutation l : Js.sort comparefn l ≡ₚ l.
Proof.
  induction l as [|x l IH]; simpl; [done|].
  rewrite sortInsert_Permutation. by f_equiv.
Qed.

Lemma sort_length l : length (Js.sort comparefn l) = length l.
Proof. by rewrite sort_Permutation. Qed.

Lemma sortInsert_descending x l :
  Js.descendingBy key l -> Js.descendingBy key (Js.sortInsert comparefn x l).
Proof using comparefn_key.
  unfold Js.descendingBy.
  induction l as [|y l IH]; simpl; intros Hl.
  - repeat constructor.
  - rewrite comparefn_key.
    apply StronglySorted_cons in Hl as [Hy Hl].
    destruct (Z.leb_spec (key y - key x) 0) as [Hle|Hgt].
    + apply StronglySorted_cons. split.
      * constructor; [lia|].
        eapply Forall_impl; [exact Hy|]. simpl. intros z Hz. lia.
      * apply StronglySorted_cons. done.
    + apply StronglySorted_cons. split; [|by apply IH].
      rewrite sortInsert_Permutation. constructor; [lia|done].
Qed.

Lemma sort_descending l : Js.descendingBy key (Js.sort comparefn l).
Proof using comparefn_key.
  induction l as [|x l IH]; simpl.
  - constructor.
  - by apply sortInsert_descending.
Qed.

Lemma sortInsert_withKey v x l :
  Js.withKey key v (Js.sortInsert comparefn x l) = Js.withKey key v (x :: l).
Proof using comparefn_key.
  unfold Js.withKey.
  induction l as [|y l IH]; simpl; [done|].
  rewrite comparefn_key.
  destruct (Z.leb_spec (key y - key x) 0) as [Hle|Hgt]; [done|].
  simpl. rewrite IH. simpl.
  destruct (Z.eqb_spec (key x) v), (Z.eqb_spec (key y) v); try done; lia.
Qed.

(** Stability: the elements of any one key keep their input order. *)
Lemma sort_withKey v l :
  Js.withKey key v (Js.sort comparefn l) = Js.withKey key v l.
Proof using comparefn_key.
  induction l as [|x l IH]; simpl; [done|].
  rewrite sortInsert_withKey. unfold Js.withKey in *. simpl. by rewrite IH.
Qed.

(** What every stable sort by this comparator returns. *)
Lemma sort_unique l sorted :
  Js.descendingBy key sorted ->
  (forall v, Js.withKey key v sorted = Js.withKey key v l) ->
  sorted = Js.sort comparefn l.
Proof using comparefn_key.
  intros Hdesc Hstable.
  apply (descending_stable_unique key); [done|apply sort_descending|].
  intros v. by rewrite Hstable, sort_withKey.
Qed.

End SortByKey.

Lemma omap_id_map {A B} (f : A -> option B) (l : list A) :
  omap id (map f l) = omap f l.
Proof.
  induction l as [|x l IH]; [done|].
  cbn. destruct (f x); cbn; by rewrite IH.
Qed.

End JsFacts.

(** ** Binary64 subtraction *)

Module JsNumberFacts.

Lemma Prim2SF_finite_cases (y : float) :
  is_finite y = true ->
  (exists s, Prim2SF y = S754_zero s)
  \/ (exists s m e, Prim2SF y = S754_finite s m e).
Proof.
  unfold is_finite. intros H.
  apply negb_true_iff, orb_false_iff in H as [Hnan Hinf].
  unfold Prim2SF. rewrite Hnan.
  destruct (is_zero y); [by left; eexists|]. rewrite Hinf.
  destruct (Z.frexp y) as [r e].
  destruct (shr_fexp _ _ _ _ _) as [shr e'].
  destruct (shr_m shr); [left|right|left]; by repeat eexists.
Qed.

(** A finite number minus itself compares equal to zero. *)
Lemma sub_diag_eqb_zero (y : float) :
  is_finite y = true -> (y - y =? 0)%float = true.
Proof.
  intros H. rewrite FloatAxioms.eqb_spec, FloatAxioms.sub_spec.
  destruct (Prim2SF_finite_cases y H) as [[s ->]|(s & m & e & ->)].
  - by destruct s.
  - unfold SF64sub, SFsub. rewrite Z.sub_diag. reflexivity.
Qed.

(** [NaN] propagates through a subtraction, differs from zero and is
    rendered as such. *)
Lemma Prim2SF_sub_nan (x y : float) :
  Prim2SF x = S754_nan \/ Prim2SF y = S754_nan -> Prim2SF (x - y) = S754_nan.
Proof.
  rewrite FloatAxioms.sub_spec. unfold SF64sub, SFsub.
  intros [->| ->]; [done|]. by destruct (Prim2SF x) as [[]|[]| |].
Qed.

Lemma isNonZero_nan (x : float) :
  Prim2SF x = S754_nan -> JsNumber.isNonZero x = true.
Proof.
  intros H. unfold JsNumber.isNonZero. rewrite FloatAxioms.eqb_spec, H. done.
Qed.

Lemma toFixed_nan h (x : float) f :
  Prim2SF x = S754_nan -> JsNumber.toFixed h x f = "NaN".
Proof. intros H. unfold JsNumber.toFixed. by rewrite H. Qed.

End JsNumberFacts.

(** ** The classifiers *)

Module ClassifierFacts.

Lemma balanceChangesOf_indices h pre post accounts :
  Forall2 (entryOf h pre post accounts)
    (Structural.balanceChangesOf h pre post accounts)
    (changedIndices pre post (length accounts)).
Proof.
  unfold Structural.balanceChangesOf, changedIndices.
  induction accounts as [|a l IH] using rev_ind; [constructor|].
  rewrite imap_app, omap_app, length_app, seq_app, List.filter_app.
  apply Forall2_app.
  - eapply Forall2_impl; [exact IH|].
    intros e i [Hacc Hch]. split; [by apply lookup_app_l_Some|done].
  - cbn. rewrite Nat.add_0_r. unfold Structural.balanceChangeOf.
    fold (changeAt pre post (length l)).
    destruct (JsNumber.isNonZero (changeAt pre post (length l))); cbn; [|constructor].
    repeat constructor; cbn. by rewrite list_lookup_middle.
Qed.

Lemma changedIndices_increasing pre post n :
  StronglySorted lt (changedIndices pre post n).
Proof.
  unfold changedIndices. generalize 0%nat.
  induction n as [|n IH]; intros k; cbn; [constructor|].
  destruct (JsNumber.isNonZero _); [|apply IH].
  constructor; [apply IH|].
  apply Forall_forall. intros i Hi.
  apply list_elem_of_In, filter_In in Hi as [Hi _]. apply in_seq in Hi. lia.
Qed.

Lemma elem_of_changedIndices pre post n i :
  i ∈ changedIndices pre post n
  <-> (i < n)%nat /\ JsNumber.isNonZero (changeAt pre post i) = true.
Proof.
  unfold changedIndices. rewrite list_elem_of_In, filter_In, in_seq.
  intuition lia.
Qed.

Lemma changeAt_missing pre post i :
  pre !! i = None \/ post !! i = None ->
  Prim2SF (changeAt pre post i) = S754_nan.
Proof.
  intros H. unfold changeAt. apply JsNumberFacts.Prim2SF_sub_nan.
  destruct H as [-> | ->]; [right|left]; by vm_compute.
Qed.

(** C3 (as stated): the entry is to carry (postLamports - preLamports) / 1e9
    at four decimals and to exist whenever the balance changed.  [alice]
    goes from 100000000 to 100050000 lamports: the code's difference of the
    two rounded quotients is just below 0.00005 and is rendered [0.0000],
    while (100050000 - 100000000) / 1e9 is rendered [0.0001].  [bob] goes
    from 8999999999999998 to 8999999999999999 lamports: the two quotients
    round to the same double and no entry is emitted for the changed
    balance. *)
Lemma C3_rounded_difference_differs :
  let tx := transferTx [100000000; 8999999999999998]%float
                       [100050000; 8999999999999999]%float in
  balanceChangesIn (Structural.parseTransactionType exampleHost tx)
  = [ {| account := "alice"; change := "0.0000" |} ]
  /\ JsNumber.toFixed exampleHost
       ((100050000 - 100000000) / LAMPORTS_PER_SOL)%float 4 = "0.0001"
  /\ (8999999999999999 - 8999999999999998 =? 0)%float = false.
Proof. by vm_compute. Qed.

(** C3 (amended): for a transaction with metadata and message, the balance
    changes are the entries of the account indices whose binary64 difference
    [post / 1e9 - pre / 1e9] is not equal to zero, in increasing index order;
    each entry carries its account and that difference rendered by
    [toFixed(4)]; an account whose pre and post balances are the same number,
    with a finite quotient, gets no entry; an account with a missing balance
    has the difference [NaN], which is not equal to zero and is rendered
    [NaN]; and 1000000000 lamports before and 1500000000 after give the
    change [0.5000]. *)
Theorem C3_balance_changes (h : Host) (tx : Sdk.ParsedTransactionWithMeta)
    (m : Sdk.ParsedTransactionMeta) (msg : Sdk.ParsedMessage)
    (Hmeta : Sdk.meta tx = Some m) (Hmsg : Sdk.message tx = Some msg) :
  let accounts := map Sdk.pubkey (Sdk.accountKeys msg) in
  let pre := default [] (Sdk.preBalances m) in
  let post := default [] (Sdk.postBalances m) in
  let indices := changedIndices pre post (length accounts) in
  Forall2 (entryOf h pre post accounts)
    (balanceChangesIn (Structural.parseTransactionType h tx)) indices
  /\ StronglySorted lt indices
  /\ (forall i, i ∈ indices
        <-> (i < length accounts)%nat
            /\ JsNumber.isNonZero (changeAt pre post i) = true)
  /\ (forall i x, pre !! i = Some x -> post !! i = Some x ->
        is_finite (x / LAMPORTS_PER_SOL) = true -> i ∉ indices)
  /\ (forall i, pre !! i = None \/ post !! i = None ->
        JsNumber.isNonZero (changeAt pre post i) = true
        /\ JsNumber.toFixed h (changeAt pre post i) 4 = "NaN")
  /\ balanceChangesIn
       (Structural.parseTransactionType h
          (transferTx [1000000000; 7]%float [1500000000; 7]%float))
     = [ {| account := "alice"; change := "0.5000" |} ].
Proof.
  intros accounts pre post indices.
  unfold Structural.parseTransactionType. rewrite Hmeta, Hmsg.
  cbn [balanceChangesIn].
  split; [apply balanceChangesOf_indices|].
  split; [apply changedIndices_increasing|].
  split; [apply elem_of_changedIndices|].
  split; [|split; [|by vm_compute]].
  2:{ intros i Hmiss. apply changeAt_missing in Hmiss.
      split; [by apply JsNumberFacts.isNonZero_nan
             |by apply JsNumberFacts.toFixed_nan]. }
  intros i x Hpre Hpost Hfin Hin.
  apply elem_of_changedIndices in Hin as [_ Hnz].
  unfold changeAt, JsNumber.isNonZero in Hnz. rewrite Hpre, Hpost in Hnz.
  cbn in Hnz. by rewrite JsNumberFacts.sub_diag_eqb_zero in Hnz.
Qed.

Lemma C3_balance_changes_witness :
  let pre := [1000000000; 7]%float in
  let post := [1500000000; 7]%float in
  Forall2 (entryOf exampleHost pre post ["alice"; "bob"])
    (balanceChangesIn
       (Structural.parseTransactionType exampleHost (transferTx pre post)))
    (changedIndices pre post 2)
  /\ changedIndices pre post 2 = [0%nat]
  /\ (1%nat ∉ changedIndices pre post 2).
Proof.
  intros pre post.
  destruct (C3_balance_changes exampleHost (transferTx pre post) _ _
              eq_refl eq_refl) as (Hentries & _ & _ & Hsame & _).
  split; [exact Hentries|]. split; [by vm_compute|].
  apply (Hsame 1%nat 7%float); by vm_compute.
Defined.

(** C5: the keyword classifier describes the log text by the category of
    the first keyword of the priority list Swap, Transfer, Deposit,
    Withdraw, Stake, Create, Close that occurs in the joined log text; text
    with both Swap and Transfer is described as a swap; text with none of
    the keywords gets the description [Transaction]. *)
Theorem C5_keyword_priority (tx : Sdk.ParsedTransactionWithMeta)
    (logMessages : list string)
    (Hlogs : Sdk.meta tx ≫= Sdk.logMessages = Some logMessages) :
  let logs := Js.join " " logMessages in
  describes (categoryOfLogs logs) (WalletTrackerHeuristic.parseTransactionType tx)
  /\ (Js.includes logs "Swap" = true -> Js.includes logs "Transfer" = true ->
      describes SwapCategory (WalletTrackerHeuristic.parseTransactionType tx))
  /\ (Forall (fun kc => Js.includes logs kc.1 = false) keywordPriority ->
      WalletTrackerHeuristic.parseTransactionType tx = "Transaction").
Proof.
  intros logs.
  assert (Hswap : Js.includes logs "Swap" = true ->
                  describes SwapCategory
                    (WalletTrackerHeuristic.parseTransactionType tx)).
  { intros Hs. unfold WalletTrackerHeuristic.parseTransactionType.
    rewrite Hlogs. fold logs. rewrite Hs.
    destruct (WalletTrackerHeuristic.matchAll logs) as [|[a s] [|[b t] rest]];
      cbn; [by left|by left|].
    right. by exists a, s, b, t. }
  split; [|split].
  - unfold categoryOfLogs. cbn [List.find keywordPriority fst snd].
    destruct (Js.includes logs "Swap") eqn:E1; [apply Hswap; reflexivity|].
    unfold WalletTrackerHeuristic.parseTransactionType.
    rewrite Hlogs. fold logs. rewrite E1.
    destruct (Js.includes logs "Transfer") eqn:E2.
    { cbn [snd describes].
      destruct (WalletTrackerHeuristic.matchAll logs) as [|[a s] rest];
        [by left|].
      right. by exists a, s. }
    destruct (Js.includes logs "Deposit") eqn:E3; [reflexivity|].
    destruct (Js.includes logs "Withdraw") eqn:E4; [reflexivity|].
    destruct (Js.includes logs "Stake") eqn:E5; [reflexivity|].
    destruct (Js.includes logs "Create") eqn:E6; [reflexivity|].
    destruct (Js.includes logs "Close") eqn:E7; reflexivity.
  - intros Hs _. by apply Hswap.
  - intros Hnone. unfold WalletTrackerHeuristic.parseTransactionType.
    rewrite Hlogs. fold logs.
    unfold keywordPriority in Hnone. rewrite !Forall_cons in Hnone.
    cbn [fst] in Hnone.
    destruct Hnone as (-> & -> & -> & -> & -> & -> & -> & _). reflexivity.
Qed.

Lemma C5_keyword_priority_witness :
  let tx := txWithLogs ["Program log: Instruction: Transfer";
                        "Swap 1.5 SOL for 42 USDC"] in
  WalletTrackerHeuristic.parseTransactionType tx = "Swapped 1.5 SOL for 42 USDC"
  /\ describes SwapCategory (WalletTrackerHeuristic.parseTransactionType tx).
Proof.
  intros tx. split; [by vm_compute|].
  apply (C5_keyword_priority tx
           ["Program log: Instruction: Transfer"; "Swap 1.5 SOL for 42 USDC"]
           eq_refl); by vm_compute.
Defined.

End ClassifierFacts.

(** ** The batched fetch *)

Module WalletFacts.
Import WalletTrackerBatched.

Section Fetch.
Context (h : Host) (rpc : Sdk.Rpc).

Lemma fetchTransaction_spec sig w :
  exists added,
    fetchTransaction h rpc sig w
    = (Ok (resolved h rpc sig), {| ui := ui w; effects := effects w ++ added |})
    /\ List.filter isNetworkCall added = [requestOf sig].
Proof.
  unfold fetchTransaction, resolved, tryCatch, call, emit, liftResult.
  unfold mbind, M_bind, mret, M_ret. simpl.
  destruct (Sdk.getParsedTransaction rpc (Sdk.signature sig)) as [[tx|]|e]; simpl.
  - by eexists [_].
  - by eexists [_].
  - eexists [_; _]. by rewrite <- app_assoc.
Qed.

Lemma promiseAll_fetchTransaction batch w :
  exists added,
    promiseAll (fetchTransaction h rpc) batch w
    = (Ok (map (resolved h rpc) batch),
       {| ui := ui w; effects := effects w ++ added |})
    /\ List.filter isNetworkCall added = map requestOf batch.
Proof.
  unfold promiseAll. revert w.
  induction batch as [|sig batch IH]; intros w; simpl.
  - exists []. rewrite app_nil_r. by destruct w.
  - destruct (fetchTransaction_spec sig w) as (a1 & E1 & N1).
    unfold mbind at 1, M_bind at 1. rewrite E1.
    destruct (IH {| ui := ui w; effects := effects w ++ a1 |}) as (a2 & E2 & N2).
    unfold mbind at 1, M_bind at 1. rewrite E2. simpl.
    exists (a1 ++ a2). rewrite app_assoc. split; [done|].
    by rewrite List.filter_app, N1, N2.
Qed.

(** With enough fuel the loop requests every signature from index [i] on,
    once and in order, and appends the records of those that resolve. *)
Lemma batchLoop_spec allSignatures fuel i acc w :
  (length allSignatures - i <= fuel)%nat ->
  exists added,
    batchLoop h rpc allSignatures fuel i acc w
    = (Ok (acc ++ omap (resolved h rpc) (drop i allSignatures)),
       {| ui := ui w; effects := effects w ++ added |})
    /\ List.filter isNetworkCall added = map requestOf (drop i allSignatures).
Proof.
  revert i acc w. induction fuel as [|fuel IH]; intros i acc w Hfuel; simpl.
  - case_decide; [lia|]. rewrite drop_ge by lia. simpl.
    exists []. rewrite !app_nil_r. by destruct w.
  - case_decide as Hi.
    + destruct (promiseAll_fetchTransaction
                  (Js.slice allSignatures i (i + batchSize)) w)
        as (a1 & E1 & N1).
      unfold mbind at 1, M_bind at 1. rewrite E1.
      set (w1 := {| ui := ui w; effects := effects w ++ a1 |}).
      assert (exists a2,
                (if decide (i + batchSize < length allSignatures)%nat
                 then emit (Sleep 100) else mret tt) w1
                = (Ok tt, {| ui := ui w; effects := effects w ++ a2 |})
                /\ List.filter isNetworkCall a2 = List.filter isNetworkCall a1)
        as (a2 & E2 & N2).
      { case_decide.
        - exists (a1 ++ [Sleep 100]). unfold emit. simpl. rewrite app_assoc.
          split; [done|]. rewrite List.filter_app. simpl. by rewrite app_nil_r.
        - by exists a1. }
      unfold mbind at 1, M_bind at 1. rewrite E2.
      edestruct (IH (i + batchSize)%nat) as (a3 & E3 & N3);
        [unfold batchSize; lia|].
      unfold Js.slice in *.
      replace (i + batchSize - i)%nat with batchSize in * by lia.
      rewrite E3. simpl. exists (a2 ++ a3). rewrite app_assoc. split.
      2:{ rewrite List.filter_app, N2, N1, N3, <- map_app.
          by rewrite <- drop_drop, take_drop. }
      f_equal. f_equal.
      rewrite <- app_assoc. f_equal.
      transitivity (omap (resolved h rpc)
                      (take batchSize (drop i allSignatures)
                       ++ drop batchSize (drop i allSignatures)));
        [|by rewrite take_drop].
      rewrite omap_app, drop_drop. f_equal. apply JsFacts.omap_id_map.
    + rewrite drop_ge by lia. simpl.
      exists []. rewrite !app_nil_r. by destruct w.
Qed.

Ltac run_fetch :=
  unfold fetchWalletData, finally, tryCatch, fetchBody, call, emit, liftResult,
    setLoading, setError, setTrades, setBalance, modifyUi;
  unfold mbind, M_bind, mret, M_ret; cbn -[batchLoop].

Lemma fetch_invalid_address w e :
  Sdk.newPublicKey rpc (addressInput (ui w)) = Throw e ->
  fetchWalletData h rpc w
  = (Ok tt, {| ui := failedState (ui w) e;
               effects := effects w ++ [ConsoleError "Wallet Data Error:" e] |}).
Proof. intros E. run_fetch. by rewrite E. Qed.

Lemma fetch_account_rejected w pubKey e :
  Sdk.newPublicKey rpc (addressInput (ui w)) = Ok pubKey ->
  Sdk.getAccountInfo rpc pubKey = Throw e ->
  fetchWalletData h rpc w
  = (Ok tt, {| ui := failedState (ui w) e;
               effects := effects w ++ [CallGetAccountInfo pubKey;
                                        ConsoleError "Wallet Data Error:" e] |}).
Proof.
  intros E1 E2. run_fetch. rewrite E1. simpl. rewrite E2. simpl.
  by rewrite <- app_assoc.
Qed.

Lemma fetch_signatures_rejected w pubKey accountInfo e :
  Sdk.newPublicKey rpc (addressInput (ui w)) = Ok pubKey ->
  Sdk.getAccountInfo rpc pubKey = Ok accountInfo ->
  Sdk.getConfirmedSignaturesForAddress2 rpc pubKey 1000 = Throw e ->
  fetchWalletData h rpc w
  = (Ok tt, {| ui := failedState (ui w) e;
               effects := effects w
                 ++ [CallGetAccountInfo pubKey;
                     CallGetConfirmedSignaturesForAddress2 pubKey 1000;
                     ConsoleError "Wallet Data Error:" e] |}).
Proof.
  intros E1 E2 E3. run_fetch. rewrite E1. simpl. rewrite E2. simpl.
  destruct accountInfo; simpl; rewrite E3; simpl; by rewrite <- !app_assoc.
Qed.

Lemma fetch_succeeds w pubKey accountInfo allSignatures :
  Sdk.newPublicKey rpc (addressInput (ui w)) = Ok pubKey ->
  Sdk.getAccountInfo rpc pubKey = Ok accountInfo ->
  Sdk.getConfirmedSignaturesForAddress2 rpc pubKey 1000 = Ok allSignatures ->
  exists added,
    fetchWalletData h rpc w
    = (Ok tt,
       {| ui := {| addressInput := addressInput (ui w);
                   balance := Some (balanceOf accountInfo);
                   trades := Js.sort byBlockTimeDesc
                               (omap (resolved h rpc) allSignatures);
                   loading := false; error := "" |};
          effects := effects w ++ added |})
    /\ List.filter isNetworkCall added
       = CallGetAccountInfo pubKey
         :: CallGetConfirmedSignaturesForAddress2 pubKey 1000
         :: map requestOf allSignatures.
Proof.
  intros E1 E2 E3. run_fetch. rewrite E1. simpl. rewrite E2. simpl.
  assert (Hb : forall w0,
    (match accountInfo with
     | Some info =>
         modifyUi (fun s =>
           {| addressInput := addressInput s;
              balance := Some (Sdk.lamports info / LAMPORTS_PER_SOL)%float;
              trades := trades s; loading := loading s; error := error s |})
     | None =>
         modifyUi (fun s =>
           {| addressInput := addressInput s; balance := Some 0%float;
              trades := trades s; loading := loading s; error := error s |})
     end) w0
    = (Ok tt, {| ui := {| addressInput := addressInput (ui w0);
                          balance := Some (balanceOf accountInfo);
                          trades := trades (ui w0); loading := loading (ui w0);
                          error := error (ui w0) |};
                 effects := effects w0 |})).
  { intros w0. by destruct accountInfo. }
  unfold modifyUi in Hb. rewrite Hb. simpl. rewrite E3. simpl.
  destruct (Nat.eqb_spec (length allSignatures) 0) as [Hlen|Hlen]; simpl.
  - apply length_zero_iff_nil in Hlen. subst. simpl.
    eexists. by rewrite <- app_assoc.
  - match goal with
    | |- context [batchLoop h rpc ?l ?f 0%nat [] ?w0] =>
        destruct (batchLoop_spec l f 0%nat [] w0) as (a & Ea & Na); [lia|]
    end.
    rewrite Ea. simpl. rewrite drop_0 in *.
    exists ([CallGetAccountInfo pubKey;
             CallGetConfirmedSignaturesForAddress2 pubKey 1000] ++ a).
    rewrite <- !app_assoc. split; [done|].
    rewrite List.filter_app, Na. done.
Qed.

End Fetch.

Lemma abortingError_cases rpc address e :
  abortingError rpc address = Some e ->
  Sdk.newPublicKey rpc address = Throw e
  \/ (exists pubKey, Sdk.newPublicKey rpc address = Ok pubKey
        /\ Sdk.getAccountInfo rpc pubKey = Throw e)
  \/ (exists pubKey accountInfo, Sdk.newPublicKey rpc address = Ok pubKey
        /\ Sdk.getAccountInfo rpc pubKey = Ok accountInfo
        /\ Sdk.getConfirmedSignaturesForAddress2 rpc pubKey 1000 = Throw e).
Proof.
  unfold abortingError.
  destruct (Sdk.newPublicKey rpc address) as [pubKey|e1] eqn:E1.
  - destruct (Sdk.getAccountInfo rpc pubKey) as [info|e2] eqn:E2.
    + destruct (Sdk.getConfirmedSignaturesForAddress2 rpc pubKey 1000)
        as [sigs|e3] eqn:E3; [done|].
      intros [= <-]. right. right. by exists pubKey, info.
    + intros [= <-]. right. left. by exists pubKey.
  - intros [= <-]. by left.
Qed.

(** C2: the two ways of deriving the success flag disagree.  For a signature
    without an error whose transaction body has no metadata, the batched
    variant (not [sig.err]) reports success and the single-round variant
    ([tx.meta?.err === null]) reports failure; for a signature record with
    an error object and metadata whose error is [null], it is the other way
    round. *)
Theorem C2_success_paths_diverge :
  (exists h sig tx,
     Sdk.err sig = None /\ Sdk.meta tx = None
     /\ successful (WalletTrackerBatched.toTrade h sig tx) = true
     /\ successful (WalletTrackerSimple.toTrade h sig tx) = false)
  /\ (exists h sig tx m,
        Sdk.err sig = Some Sdk.ErrObject
        /\ Sdk.meta tx = Some m /\ Sdk.metaErr m = None
        /\ successful (WalletTrackerBatched.toTrade h sig tx) = false
        /\ successful (WalletTrackerSimple.toTrade h sig tx) = true).
Proof.
  split.
  - exists exampleHost,
      {| Sdk.signature := "s1"; Sdk.blockTime := Some 5; Sdk.err := None |},
      bareTx.
    by vm_compute.
  - exists exampleHost,
      {| Sdk.signature := "s1"; Sdk.blockTime := Some 5;
         Sdk.err := Some Sdk.ErrObject |},
      (txWithLogs []),
      {| Sdk.metaErr := None; Sdk.logMessages := Some [];
         Sdk.preBalances := None; Sdk.postBalances := None;
         Sdk.innerInstructions := None |}.
    by vm_compute.
Qed.

(** C4: after a batched fetch whose address decode, balance request and
    signature-list request succeed, the trades are in descending order of
    [blockTime || 0]; trades with the same block time keep the order of the
    signature list, and the trade list is the only descending one that does
    so; the trades are exactly the records of the signatures whose body
    resolved; and the block time of a record is that of its signature, 0
    when the signature has none. *)
Theorem C4_trades_newest_first (h : Host) (rpc : Sdk.Rpc) (w : World)
    (pubKey : PublicKey) (accountInfo : option Sdk.AccountInfo)
    (allSignatures : list Sdk.ConfirmedSignatureInfo)
    (Hkey : Sdk.newPublicKey rpc (addressInput (ui w)) = Ok pubKey)
    (Hinfo : Sdk.getAccountInfo rpc pubKey = Ok accountInfo)
    (Hsigs : Sdk.getConfirmedSignaturesForAddress2 rpc pubKey 1000
             = Ok allSignatures) :
  let result := trades (ui (fetchWalletData h rpc w).2) in
  let fetched := omap (resolved h rpc) allSignatures in
  let key := fun r : Trade => orZero (blockTime r) in
  Js.descendingBy key result
  /\ (forall t, Js.withKey key t result = Js.withKey key t fetched)
  /\ (forall l, Js.descendingBy key l ->
        (forall t, Js.withKey key t l = Js.withKey key t fetched) ->
        l = result)
  /\ result ≡ₚ fetched
  /\ (forall r, r ∈ result ->
        exists sig, sig ∈ allSignatures
          /\ signature r = Sdk.signature sig
          /\ blockTime r = Some (orZero (Sdk.blockTime sig))).
Proof.
  intros result fetched key.
  destruct (fetch_succeeds h rpc w _ _ _ Hkey Hinfo Hsigs) as (added & E & _).
  unfold result. rewrite E. simpl. fold fetched.
  assert (Hcmp : forall a b, byBlockTimeDesc a b = key b - key a) by done.
  split; [by apply (JsFacts.sort_descending _ _ Hcmp)|].
  split; [intros t; by apply (JsFacts.sort_withKey _ _ Hcmp)|].
  split; [intros l Hdesc Hstable; by apply (JsFacts.sort_unique _ _ Hcmp)|].
  split; [apply JsFacts.sort_Permutation|].
  intros r Hr. rewrite JsFacts.sort_Permutation in Hr.
  apply list_elem_of_omap in Hr as (sig & Hsig & Hres).
  exists sig. split; [done|]. unfold resolved in Hres.
  destruct (Sdk.getParsedTransaction rpc (Sdk.signature sig)) as [[tx|]|];
    try done.
  by injection Hres as <-.
Qed.

Lemma C4_trades_newest_first_witness :
  let result :=
    trades (ui (fetchWalletData exampleHost exampleRpc (worldOf "wallet")).2) in
  map (fun r => (signature r, blockTime r)) result
  = [("s3", Some 9); ("s1", Some 5); ("s5", Some 5); ("s2", Some 0)]
  /\ Js.descendingBy (fun r => orZero (blockTime r)) result.
Proof.
  split; [by vm_compute|].
  eapply (C4_trades_newest_first exampleHost exampleRpc (worldOf "wallet")
            "wallet" None); reflexivity.
Defined.

(** C6: when the address decode, the balance request or the signature-list
    request of a batched fetch fails with an error, the fetch itself
    completes and leaves the balance [null], the trade list empty and the
    error's message as the displayed error, with the loading flag off. *)
Theorem C6_failed_fetch_clears_state (h : Host) (rpc : Sdk.Rpc) (w : World)
    (e : JsError) (Habort : abortingError rpc (addressInput (ui w)) = Some e) :
  let after := ui (fetchWalletData h rpc w).2 in
  balance after = None
  /\ trades after = []
  /\ error after = message e
  /\ loading after = false
  /\ (fetchWalletData h rpc w).1 = Ok tt.
Proof.
  destruct (abortingError_cases _ _ _ Habort)
    as [E1|[(pubKey & E1 & E2)|(pubKey & info & E1 & E2 & E3)]].
  - by rewrite (fetch_invalid_address h rpc w e E1).
  - by rewrite (fetch_account_rejected h rpc w pubKey e E1 E2).
  - by rewrite (fetch_signatures_rejected h rpc w pubKey info e E1 E2 E3).
Qed.

Lemma C6_failed_fetch_clears_state_witness :
  let after := ui (fetchWalletData exampleHost rejectingSignaturesRpc
                     (worldOf "wallet")).2 in
  balance after = None
  /\ trades after = []
  /\ error after = "failed to get signatures"
  /\ loading after = false
  /\ (fetchWalletData exampleHost rejectingSignaturesRpc (worldOf "wallet")).1
     = Ok tt.
Proof.
  exact (C6_failed_fetch_clears_state exampleHost rejectingSignaturesRpc
           (worldOf "wallet") {| message := "failed to get signatures" |}
           eq_refl).
Defined.

(** C7: when the address does not decode, the fetch adds a single effect,
    the console line of the [catch] block, and so starts no balance,
    signature or transaction request; the decode error's message becomes
    the displayed error and balance and trades are cleared. *)
Theorem C7_invalid_address_no_network (h : Host) (rpc : Sdk.Rpc) (w : World)
    (e : JsError)
    (Hdecode : Sdk.newPublicKey rpc (addressInput (ui w)) = Throw e) :
  let after := (fetchWalletData h rpc w).2 in
  addedEffects w after = [ConsoleError "Wallet Data Error:" e]
  /\ List.filter isNetworkCall (addedEffects w after) = []
  /\ error (ui after) = message e
  /\ balance (ui after) = None
  /\ trades (ui after) = [].
Proof.
  unfold addedEffects.
  rewrite (fetch_invalid_address h rpc w e Hdecode). simpl.
  rewrite drop_app_length. done.
Qed.

Lemma C7_invalid_address_no_network_witness :
  let w := worldOf "abc" in
  let after := (fetchWalletData exampleHost exampleRpc w).2 in
  addedEffects w after
  = [ConsoleError "Wallet Data Error:" {| message := "Invalid public key input" |}]
  /\ List.filter isNetworkCall (addedEffects w after) = []
  /\ error (ui after) = "Invalid public key input"
  /\ balance (ui after) = None
  /\ trades (ui after) = [].
Proof.
  exact (C7_invalid_address_no_network exampleHost exampleRpc (worldOf "abc")
           {| message := "Invalid public key input" |} eq_refl).
Defined.

(** C8: after a batched fetch whose address decode, balance request and
    signature-list request succeed, one transaction body has been requested
    per signature, in order; the trade list is no longer than the signature
    list (so at most 1000 long when the signature request honours its
    limit) and has exactly one record per signature whose body resolved;
    whatever the body requests return, no error is displayed and the
    balance stays set. *)
Theorem C8_dropped_transactions (h : Host) (rpc : Sdk.Rpc) (w : World)
    (pubKey : PublicKey) (accountInfo : option Sdk.AccountInfo)
    (allSignatures : list Sdk.ConfirmedSignatureInfo)
    (Hkey : Sdk.newPublicKey rpc (addressInput (ui w)) = Ok pubKey)
    (Hinfo : Sdk.getAccountInfo rpc pubKey = Ok accountInfo)
    (Hsigs : Sdk.getConfirmedSignaturesForAddress2 rpc pubKey 1000
             = Ok allSignatures) :
  let after := (fetchWalletData h rpc w).2 in
  List.filter isBodyRequest (addedEffects w after) = map requestOf allSignatures
  /\ (length (trades (ui after)) <= length allSignatures)%nat
  /\ ((length allSignatures <= 1000)%nat ->
      (length (trades (ui after)) <= 1000)%nat)
  /\ length (trades (ui after))
     = length (List.filter (resolves rpc) allSignatures)
  /\ (forall sig, sig ∈ allSignatures -> resolves rpc sig = true ->
        exists r, r ∈ trades (ui after) /\ signature r = Sdk.signature sig)
  /\ error (ui after) = ""
  /\ balance (ui after) = Some (balanceOf accountInfo)
  /\ (fetchWalletData h rpc w).1 = Ok tt.
Proof.
  intros after.
  destruct (fetch_succeeds h rpc w _ _ _ Hkey Hinfo Hsigs) as (added & E & N).
  unfold after, addedEffects. rewrite E. simpl. rewrite drop_app_length.
  assert (Hlen : length (omap (resolved h rpc) allSignatures)
                 = length (List.filter (resolves rpc) allSignatures)).
  { clear. induction allSignatures as [|sig l IH]; [done|].
    cbn. unfold resolved, resolves in *.
    destruct (Sdk.getParsedTransaction rpc (Sdk.signature sig)) as [[tx|]|];
      cbn; by rewrite IH. }
  rewrite JsFacts.sort_length, Hlen.
  split.
  { transitivity (List.filter isBodyRequest (List.filter isNetworkCall added)).
    - clear. induction added as [|x l IH]; [done|].
      destruct x; simpl; by rewrite IH.
    - rewrite N. simpl. clear. induction allSignatures as [|sig l IH]; [done|].
      simpl. by rewrite IH. }
  split; [apply List.filter_length_le|].
  split.
  { pose proof (List.filter_length_le (resolves rpc) allSignatures). lia. }
  split; [done|].
  split; [|done].
  intros sig Hin Hres. unfold resolves in Hres.
  destruct (Sdk.getParsedTransaction rpc (Sdk.signature sig)) as [[tx|]|] eqn:Etx;
    try done.
  exists (toTrade h sig tx). split; [|done].
  rewrite JsFacts.sort_Permutation. apply list_elem_of_omap.
  exists sig. split; [done|]. unfold resolved. by rewrite Etx.
Qed.

Lemma C8_dropped_transactions_witness :
  let after := (fetchWalletData exampleHost exampleRpc (worldOf "wallet")).2 in
  length (trades (ui after)) = 4%nat
  /\ error (ui after) = ""
  /\ balance (ui after) = Some 0%float.
Proof.
  destruct (C8_dropped_transactions exampleHost exampleRpc (worldOf "wallet")
              "wallet" None _ eq_refl eq_refl eq_refl)
    as (_ & _ & _ & Hlen & _ & Herr & Hbal & _).
  split; [exact Hlen|]. split; [exact Herr|exact Hbal].
Defined.

End WalletFacts.

(** ** The user ranking panel *)

Module UserSidebarFacts.
Import UserSidebar.

Lemma isSelected_elem_of s metric :
  isSelected s metric = true <-> metric ∈ selectedDimensions s.
Proof.
  unfold isSelected, Js.arrayIncludes. rewrite existsb_exists. split.
  - intros (d & Hd & Heq). apply String.eqb_eq in Heq. subst.
    by apply list_elem_of_In.
  - intros Hin. exists metric. split; [by apply list_elem_of_In|].
    apply String.eqb_refl.
Qed.

Lemma elem_of_deselect (d metric : string) (l : list string) :
  d ∈ List.filter (fun d' => negb (String.eqb d' metric)) l
  <-> d ∈ l /\ d <> metric.
Proof.
  rewrite !list_elem_of_In, filter_In, negb_true_iff, String.eqb_neq. done.
Qed.

Lemma step_sortMetricSelected s s' :
  step s s' -> sortMetricSelected s -> sortMetricSelected s'.
Proof.
  unfold sortMetricSelected.
  intros Hstep Hs. destruct Hstep as [metric checked _ _|metric _ Hen|o]; simpl.
  - unfold onCheckedChange. destruct checked; simpl.
    + apply elem_of_app. by left.
    + destruct (String.eqb_spec metric (activeSortDimension s)); simpl; [done|].
      apply elem_of_deselect. split; [done|congruence].
    + destruct (String.eqb_spec metric (activeSortDimension s)); simpl; [done|].
      apply elem_of_deselect. split; [done|congruence].
  - apply isSelected_elem_of. unfold sortDisabled in Hen.
    by apply negb_false_iff in Hen.
  - done.
Qed.

Lemma reachable_sortMetricSelected s : reachable s -> sortMetricSelected s.
Proof.
  unfold reachable. revert s. apply rtc_ind_r.
  - unfold sortMetricSelected. simpl. apply list_elem_of_here.
  - intros s1 s2 _ Hstep IH. by eapply step_sortMetricSelected.
Qed.

Lemma reachable_twoDisplayed : reachable twoDisplayed.
Proof.
  unfold reachable.
  eapply rtc_l; [apply (step_open _ true)|].
  eapply rtc_l; [apply (step_check _ "revenue" Checked); [|by vm_compute]|].
  - vm_compute. set_solver.
  - simpl. apply rtc_refl.
Qed.

(** C1 (as stated): the specification lets the sort metric be deselected
    while another metric stays displayed, and has a sort change add an
    unselected metric to the display set.  With [timeSpent] and [revenue]
    displayed and [timeSpent] the sort metric, a reachable state, the
    checkbox of [timeSpent] is enabled but unchecking it removes nothing;
    and in the initial state the Sort button of the undisplayed [revenue]
    is disabled, so no sort change to an undisplayed metric takes place. *)
Lemma C1_deselect_and_implicit_add_fail :
  (reachable twoDisplayed
   /\ specAllowsDeselect twoDisplayed "timeSpent" = true
   /\ checkboxDisabled twoDisplayed "timeSpent" = false
   /\ onCheckedChange "timeSpent" Unchecked twoDisplayed = twoDisplayed
   /\ isSelected (onCheckedChange "timeSpent" Unchecked twoDisplayed) "timeSpent"
      = true)
  /\ (reachable initialSelection
      /\ isSelected initialSelection "revenue" = false
      /\ sortDisabled initialSelection "revenue" = true).
Proof.
  split.
  - split; [apply reachable_twoDisplayed|by vm_compute].
  - split; [apply rtc_refl|by vm_compute].
Qed.

(** C1 (amended): in every reachable popover state the sort metric is one of
    the displayed metrics; unchecking a metric removes it, and nothing else,
    from the display set when it is not the sort metric, and leaves the
    state as it is when it is the sort metric, however many metrics are
    displayed; a checkbox is disabled exactly when its metric is the sort
    metric and the only displayed one; the Sort button is enabled exactly
    for the displayed metrics, and a sort change leaves the display set as
    it is. *)
Theorem C1_selection_invariant (s : Selection) (Hs : reachable s) :
  activeSortDimension s ∈ selectedDimensions s
  /\ (forall metric, metric <> activeSortDimension s ->
        (metric ∉ selectedDimensions (onCheckedChange metric Unchecked s))
        /\ (forall d, d <> metric ->
              (d ∈ selectedDimensions (onCheckedChange metric Unchecked s)
               <-> d ∈ selectedDimensions s)))
  /\ onCheckedChange (activeSortDimension s) Unchecked s = s
  /\ (forall metric,
        checkboxDisabled s metric = true
        <-> metric = activeSortDimension s /\ selectedDimensions s = [metric])
  /\ (forall metric,
        sortDisabled s metric = false <-> metric ∈ selectedDimensions s)
  /\ (forall metric, sortDisabled s metric = false ->
        selectedDimensions (sortOnClick metric s) = selectedDimensions s
        /\ activeSortDimension (sortOnClick metric s) = metric).
Proof.
  pose proof (reachable_sortMetricSelected s Hs) as Hsort.
  unfold sortMetricSelected in Hsort.
  split; [done|].
  split.
  { intros metric Hne. unfold onCheckedChange.
    destruct (String.eqb_spec metric (activeSortDimension s)); [done|]. simpl.
    split.
    - rewrite elem_of_deselect. tauto.
    - intros d Hd. rewrite elem_of_deselect. tauto. }
  split.
  { unfold onCheckedChange. by rewrite String.eqb_refl. }
  split.
  { intros metric. unfold checkboxDisabled, isSorting.
    rewrite andb_true_iff, String.eqb_eq, Nat.eqb_eq. split.
    - intros [<- Hlen]. split; [done|].
      destruct (selectedDimensions s) as [|d [|d' rest]]; try done.
      by apply list_elem_of_singleton in Hsort as ->.
    - intros [-> Hsel]. by rewrite Hsel. }
  split.
  { intros metric. unfold sortDisabled. rewrite negb_false_iff.
    apply isSelected_elem_of. }
  intros metric _. done.
Qed.

Lemma C1_selection_invariant_witness :
  activeSortDimension twoDisplayed ∈ selectedDimensions twoDisplayed
  /\ onCheckedChange "timeSpent" Unchecked twoDisplayed = twoDisplayed
  /\ ("revenue"
        ∉ selectedDimensions (onCheckedChange "revenue" Unchecked twoDisplayed))
  /\ selectedDimensions (sortOnClick "revenue" twoDisplayed)
     = selectedDimensions twoDisplayed
  /\ checkboxDisabled initialSelection "timeSpent" = true.
Proof.
  destruct (C1_selection_invariant twoDisplayed reachable_twoDisplayed)
    as (Hin & Hun & Hsort & _ & Hen & Hclick).
  destruct (C1_selection_invariant initialSelection (rtc_refl _ _))
    as (_ & _ & _ & Hbox & _).
  split; [exact Hin|]. split; [exact Hsort|]. split; [|split].
  - apply (Hun "revenue"). discriminate.
  - apply (Hclick "revenue"). by vm_compute.
  - apply (Hbox "timeSpent"). by split.
Defined.

Lemma byMetricDesc_key dim a b :
  byMetricDesc dim a b = metricOrZero dim b - metricOrZero dim a.
Proof. reflexivity. Qed.

(** C9: the users that match the query are sorted in descending order of
    [metrics[sortMetricId] || 0]; users with equal values keep their input
    order, and the sorted sequence is the only descending one that does so;
    the user at index [i] of the sorted sequence gets the rank [i + 1]; and
    the three users of the specification's example come out as id 3, id 1,
    id 2 with the ranks 1, 2, 3. *)
Theorem C9_ranking_sorted_stable_dense
    (users : list User) (searchQuery sortMetricId : string) :
  let matching := List.filter (matchesQuery searchQuery) users in
  let sorted := filteredAndSortedUsers users searchQuery sortMetricId in
  let ranked := rankedUsers users searchQuery sortMetricId in
  Js.descendingBy (metricOrZero sortMetricId) sorted
  /\ (forall v, Js.withKey (metricOrZero sortMetricId) v sorted
               = Js.withKey (metricOrZero sortMetricId) v matching)
  /\ (forall l, Js.descendingBy (metricOrZero sortMetricId) l ->
        (forall v, Js.withKey (metricOrZero sortMetricId) v l
                   = Js.withKey (metricOrZero sortMetricId) v matching) ->
        l = sorted)
  /\ length ranked = length sorted
  /\ (forall i u, sorted !! i = Some u ->
        ranked !! i = Some (withRank i u)
        /\ rank (withRank i u) = Some (Z.of_nat i + 1))
  /\ map (fun u => (id u, rank u)) (rankedUsers exampleUsers "" "m")
     = [(3, Some 1); (1, Some 2); (2, Some 3)].
Proof.
  intros matching sorted ranked.
  split.
  { apply (JsFacts.sort_descending _ (metricOrZero sortMetricId)).
    apply byMetricDesc_key. }
  split.
  { intros v.
    apply (JsFacts.sort_withKey _ (metricOrZero sortMetricId)).
    apply byMetricDesc_key. }
  split.
  { intros l Hdesc Hstable.
    by apply (JsFacts.sort_unique _ (metricOrZero sortMetricId)
                (byMetricDesc_key sortMetricId)). }
  split.
  { unfold ranked, rankedUsers. apply length_imap. }
  split.
  { intros i u Hi. unfold ranked, rankedUsers. fold sorted.
    rewrite list_lookup_imap, Hi. done. }
  by vm_compute.
Qed.

(** C10: the sorted sequence is a permutation of the input users that match
    the query, so it holds exactly those users, each as often as the input
    does; and the ranked output is that sequence position by position with
    every field but [rank] kept. *)
Theorem C10_ranking_frame
    (users : list User) (searchQuery sortMetricId : string) :
  filteredAndSortedUsers users searchQuery sortMetricId
    ≡ₚ List.filter (matchesQuery searchQuery) users
  /\ Forall2 sameButRank
       (rankedUsers users searchQuery sortMetricId)
       (filteredAndSortedUsers users searchQuery sortMetricId)
  /\ (forall u, u ∈ filteredAndSortedUsers users searchQuery sortMetricId
        <-> u ∈ users /\ matchesQuery searchQuery u = true).
Proof.
  split; [apply JsFacts.sort_Permutation|].
  split.
  - unfold rankedUsers.
    generalize (filteredAndSortedUsers users searchQuery sortMetricId).
    intros l. apply Forall2_same_length_lookup. split; [apply length_imap|].
    intros i out u Hout Hu. rewrite list_lookup_imap, Hu in Hout.
    injection Hout as <-. by repeat split.
  - intros u. unfold filteredAndSortedUsers.
    rewrite JsFacts.sort_Permutation, !list_elem_of_In, filter_In. done.
Qed.

End UserSidebarFacts.

(** ** Strings *)

Module StringFacts.

Lemma allAscii_complete (c : ascii) : c ∈ allAscii.
Proof.
  unfold allAscii. apply list_elem_of_fmap. exists (nat_of_ascii c).
  split; [by rewrite ascii_nat_embedding|].
  apply elem_of_seq. pose proof (nat_ascii_bounded c). lia.
Qed.

(** A property of characters holds for all of them when it holds for each
    of the 256. *)
Lemma forall_ascii (P : ascii -> bool) :
  forallb P allAscii = true -> forall c, P c = true.
Proof.
  intros H c. rewrite forallb_forall in H. apply H.
  apply list_elem_of_In, allAscii_complete.
Qed.

Lemma app_nil t : "" +:+ t = t.
Proof. reflexivity. Qed.

Lemma app_cons c s t : String c s +:+ t = String c (s +:+ t).
Proof. reflexivity. Qed.

Lemma prefix_nil s : String.prefix "" s = true.
Proof. by destruct s. Qed.

Lemma prefix_cons a t b s :
  String.prefix (String a t) (String b s)
  = if ascii_dec a b then String.prefix t s else false.
Proof. reflexivity. Qed.

Lemma prefix_spec t s :
  String.prefix t s = true <-> exists after, s = t +:+ after.
Proof.
  revert s. induction t as [|a t IH]; intros s.
  - rewrite prefix_nil. split; [intros _; by exists s|done].
  - destruct s as [|b s].
    + split; [done|]. intros [after H]. by rewrite app_cons in H.
    + rewrite prefix_cons. destruct (ascii_dec a b) as [->|Hne].
      * rewrite IH. split; intros [after H]; exists after.
        -- by rewrite app_cons, H.
        -- rewrite app_cons in H. by injection H.
      * split; [done|]. intros [after H]. rewrite app_cons in H.
        by injection H.
Qed.

(** [s.includes(t)] holds exactly when [t] occurs in [s]. *)
Lemma includes_spec s t : Js.includes s t = true <-> substringOf t s.
Proof.
  unfold substringOf. induction s as [|c s IH]; cbn [Js.includes].
  - rewrite orb_false_r, prefix_spec. split.
    + intros [after H]. by exists "", after.
    + intros (before & after & H). destruct before as [|b before].
      * by exists after.
      * by rewrite app_cons in H.
  - rewrite orb_true_iff, prefix_spec, IH. split.
    + intros [[after H]|(before & after & H)].
      * by exists "", after.
      * exists (String c before), after. by rewrite app_cons, H.
    + intros (before & after & H). destruct before as [|b before].
      * left. by exists after.
      * right. rewrite app_cons in H. injection H as -> ->.
        by exists before, after.
Qed.

Lemma length_chars s : String.length s = length (list_ascii_of_string s).
Proof. induction s as [|c s IH]; simpl; by rewrite ?IH. Qed.

Lemma includes_empty s : Js.includes s "" = true.
Proof. apply includes_spec. by exists "", s. Qed.

Lemma toLowerCase_app s t :
  Js.toLowerCase (s +:+ t) = Js.toLowerCase s +:+ Js.toLowerCase t.
Proof.
  induction s as [|c s IH]; [done|].
  rewrite app_cons. cbn [Js.toLowerCase]. by rewrite app_cons, IH.
Qed.

Lemma lowerAscii_idemp c : Js.lowerAscii (Js.lowerAscii c) = Js.lowerAscii c.
Proof.
  apply Ascii.eqb_eq. revert c. apply forall_ascii. by vm_compute.
Qed.

Lemma toLowerCase_idemp s : Js.toLowerCase (Js.toLowerCase s) = Js.toLowerCase s.
Proof.
  induction s as [|c s IH]; simpl; [done|]. by rewrite lowerAscii_idemp, IH.
Qed.

Lemma includes_toLowerCase s t :
  Js.includes s t = true ->
  Js.includes (Js.toLowerCase s) (Js.toLowerCase t) = true.
Proof.
  rewrite !includes_spec. intros (before & after & ->).
  exists (Js.toLowerCase before), (Js.toLowerCase after).
  by rewrite !toLowerCase_app.
Qed.

Lemma prefix_before_space t a b :
  noSpace t ->
  String.prefix t (a +:+ String " " b) = String.prefix t a.
Proof.
  unfold noSpace. revert a. induction t as [|x t IH]; intros a Ht.
  - by rewrite !prefix_nil.
  - cbn [list_ascii_of_string] in Ht. apply Forall_cons in Ht as [Hx Ht].
    destruct a as [|c a].
    + rewrite app_nil, prefix_cons. by destruct (ascii_dec x " ").
    + rewrite app_cons, !prefix_cons. destruct (ascii_dec x c); [by apply IH|done].
Qed.

(** A search text without a space occurs in [a + " " + b] only inside [a]
    or inside [b]. *)
Lemma includes_around_space t a b :
  noSpace t ->
  Js.includes (a +:+ String " " b) t = Js.includes a t || Js.includes b t.
Proof.
  intros Ht. induction a as [|c a IH].
  - rewrite app_nil. cbn [Js.includes]. rewrite orb_false_r.
    by rewrite <- (prefix_before_space t "" b), app_nil.
  - rewrite app_cons. cbn [Js.includes]. rewrite IH, <- app_cons.
    rewrite prefix_before_space by done. by rewrite orb_assoc.
Qed.

Lemma includes_join t msgs :
  noSpace t -> t <> "" ->
  Js.includes (Js.join " " msgs) t = existsb (fun msg => Js.includes msg t) msgs.
Proof.
  intros Ht Hne. induction msgs as [|m msgs IH].
  - simpl. by destruct t.
  - destruct msgs as [|m' msgs].
    + simpl. by rewrite orb_false_r.
    + change (Js.join " " (m :: m' :: msgs))
        with (m +:+ String " " (Js.join " " (m' :: msgs))).
      rewrite includes_around_space by done. by rewrite IH.
Qed.

End StringFacts.

(** ** The batched fetch as a whole (part_001) *)

Module FetchOutcomeFacts.
Import WalletTrackerBatched.

Lemma roundsOf_nil fuel : roundsOf fuel [] = [].
Proof. by destruct fuel. Qed.

Lemma roundsOf_fuel fuel1 fuel2 sigs :
  (length sigs <= fuel1)%nat -> (length sigs <= fuel2)%nat ->
  roundsOf fuel1 sigs = roundsOf fuel2 sigs.
Proof.
  revert fuel2 sigs.
  induction fuel1 as [|fuel1 IH]; intros fuel2 sigs H1 H2.
  - destruct sigs; [by rewrite !roundsOf_nil|simpl in H1; lia].
  - destruct sigs as [|sig sigs]; [by rewrite !roundsOf_nil|].
    destruct fuel2 as [|fuel2]; [simpl in H2; lia|].
    cbn [roundsOf]. f_equal.
    apply IH; rewrite length_drop; cbn [length] in *; unfold batchSize; lia.
Qed.

Lemma roundsOf_enough fuel sigs :
  (length sigs <= fuel)%nat -> roundsOf fuel sigs = rounds sigs.
Proof. intros H. by apply roundsOf_fuel. Qed.

Lemma rounds_cons sig sigs :
  rounds (sig :: sigs)
  = take batchSize (sig :: sigs) :: rounds (drop batchSize (sig :: sigs)).
Proof.
  unfold rounds at 1. cbn [length roundsOf]. f_equal.
  apply roundsOf_enough. rewrite length_drop. cbn [length]. unfold batchSize. lia.
Qed.

Lemma rounds_drop_nil sigs i :
  rounds (drop i sigs) = [] <-> (length sigs <= i)%nat.
Proof.
  split.
  - intros H. destruct (drop i sigs) as [|x l] eqn:E.
    + apply (f_equal length) in E. rewrite length_drop in E. simpl in E. lia.
    + by rewrite rounds_cons in H.
  - intros H. by rewrite drop_ge.
Qed.

Lemma roundsOf_concat fuel sigs :
  (length sigs <= fuel)%nat -> concat (roundsOf fuel sigs) = sigs.
Proof.
  revert sigs. induction fuel as [|fuel IH]; intros sigs Hlen.
  - destruct sigs; [done|simpl in Hlen; lia].
  - destruct sigs as [|sig sigs]; [done|].
    cbn [roundsOf concat]. rewrite IH; [apply take_drop|].
    rewrite length_drop. cbn [length] in *. unfold batchSize. lia.
Qed.

(** The rounds partition the signature list into consecutive runs of
    [batchSize] signatures, the last one possibly shorter. *)
Lemma rounds_concat sigs : concat (rounds sigs) = sigs.
Proof. by apply roundsOf_concat. Qed.

Lemma rounds_sizes sigs :
  Forall (fun r => (1 <= length r <= batchSize)%nat) (rounds sigs).
Proof.
  unfold rounds. generalize (length sigs). intros fuel. revert sigs.
  induction fuel as [|fuel IH]; intros sigs; [constructor|].
  destruct sigs as [|sig sigs]; [constructor|].
  cbn [roundsOf]. constructor; [|apply IH].
  rewrite length_take. cbn [length]. unfold batchSize. lia.
Qed.

Lemma rejected_app rpc (l1 l2 : list Sdk.ConfirmedSignatureInfo) :
  length (List.filter (rejects rpc) (l1 ++ l2))
  = (length (List.filter (rejects rpc) l1)
     + length (List.filter (rejects rpc) l2))%nat.
Proof. by rewrite List.filter_app, length_app. Qed.

Section Trace.
Context (h : Host) (rpc : Sdk.Rpc).

(** One body request: the request itself, and a console line when it is
    rejected. *)
Lemma fetchTransaction_trace sig w :
  exists added,
    fetchTransaction h rpc sig w
    = (Ok (resolved h rpc sig), {| ui := ui w; effects := effects w ++ added |})
    /\ List.filter isRequestOrPause added = [requestOf sig]
    /\ length (List.filter isConsoleLine added)
       = length (List.filter (rejects rpc) [sig]).
Proof.
  unfold fetchTransaction, resolved, tryCatch, call, emit, liftResult.
  unfold mbind, M_bind, mret, M_ret. simpl. unfold rejects.
  destruct (Sdk.getParsedTransaction rpc (Sdk.signature sig)) as [[tx|]|e]; simpl.
  - by eexists [_].
  - by eexists [_].
  - eexists [_; _]. by rewrite <- app_assoc.
Qed.

Lemma promiseAll_trace batch w :
  exists added,
    promiseAll (fetchTransaction h rpc) batch w
    = (Ok (map (resolved h rpc) batch),
       {| ui := ui w; effects := effects w ++ added |})
    /\ List.filter isRequestOrPause added = map requestOf batch
    /\ length (List.filter isConsoleLine added)
       = length (List.filter (rejects rpc) batch).
Proof.
  unfold promiseAll. revert w.
  induction batch as [|sig batch IH]; intros w.
  - exists []. simpl. rewrite app_nil_r. by destruct w.
  - destruct (fetchTransaction_trace sig w) as (a1 & E1 & N1 & C1).
    cbn [mapM]. unfold mbind at 1, M_bind at 1. rewrite E1.
    destruct (IH {| ui := ui w; effects := effects w ++ a1 |})
      as (a2 & E2 & N2 & C2).
    unfold mbind at 1, M_bind at 1. rewrite E2. simpl.
    exists (a1 ++ a2). rewrite app_assoc. split; [done|].
    rewrite !List.filter_app, N1, N2, length_app, C1, C2.
    split; [done|]. by rewrite <- rejected_app.
Qed.

Lemma batchLoop_trace allSignatures fuel i acc w :
  (length allSignatures - i <= fuel)%nat ->
  exists added,
    batchLoop h rpc allSignatures fuel i acc w
    = (Ok (acc ++ omap (resolved h rpc) (drop i allSignatures)),
       {| ui := ui w; effects := effects w ++ added |})
    /\ List.filter isRequestOrPause added = paced (rounds (drop i allSignatures))
    /\ length (List.filter isConsoleLine added)
       = length (List.filter (rejects rpc) (drop i allSignatures)).
Proof.
  revert i acc w. induction fuel as [|fuel IH]; intros i acc w Hfuel; simpl.
  - case_decide; [lia|]. rewrite drop_ge by lia. simpl.
    exists []. rewrite !app_nil_r. by destruct w.
  - case_decide as Hi.
    + destruct (promiseAll_trace (Js.slice allSignatures i (i + batchSize)) w)
        as (a1 & E1 & N1 & C1).
      unfold mbind at 1, M_bind at 1. rewrite E1.
      set (w1 := {| ui := ui w; effects := effects w ++ a1 |}).
      assert (Hfuel' : (length allSignatures - (i + batchSize) <= fuel)%nat)
        by (unfold batchSize; lia).
      unfold Js.slice in *.
      replace (i + batchSize - i)%nat with batchSize in * by lia.
      assert (Hres : acc ++ omap (resolved h rpc) (drop i allSignatures)
                = (acc ++ omap id (map (resolved h rpc)
                                     (take batchSize (drop i allSignatures))))
                  ++ omap (resolved h rpc) (drop (i + batchSize) allSignatures)).
      { rewrite <- app_assoc. f_equal.
        rewrite <- (take_drop batchSize (drop i allSignatures)) at 1.
        rewrite omap_app, drop_drop. f_equal. symmetry. apply JsFacts.omap_id_map. }
      assert (Hrounds : rounds (drop i allSignatures)
                = take batchSize (drop i allSignatures)
                  :: rounds (drop (i + batchSize) allSignatures)).
      { destruct (drop i allSignatures) as [|x l] eqn:E.
        - apply (f_equal length) in E. rewrite length_drop in E. simpl in E. lia.
        - rewrite rounds_cons. f_equal. by rewrite <- E, drop_drop. }
      assert (Hrej : length (List.filter (rejects rpc) (drop i allSignatures))
                = (length (List.filter (rejects rpc)
                             (take batchSize (drop i allSignatures)))
                   + length (List.filter (rejects rpc)
                               (drop (i + batchSize) allSignatures)))%nat).
      { rewrite <- rejected_app, <- drop_drop. by rewrite take_drop. }
      rewrite Hres, Hrounds, Hrej.
      case_decide as Hmore.
      * unfold mbind at 1, M_bind at 1. unfold emit at 1. cbn [ui effects w1].
        edestruct (IH (i + batchSize)%nat) as (a3 & E3 & N3 & C3); [exact Hfuel'|].
        rewrite E3. simpl. exists (a1 ++ [Sleep 100] ++ a3).
        rewrite !app_assoc. split; [done|].
        rewrite !List.filter_app, !length_app, N1, N3, C1, C3. simpl.
        split; [|lia].
        destruct (rounds (drop (i + batchSize) allSignatures)) as [|r rs] eqn:Er.
        { apply rounds_drop_nil in Er. lia. }
        by rewrite <- app_assoc.
      * unfold mbind at 1, M_bind at 1. unfold mret at 1, M_ret at 1.
        edestruct (IH (i + batchSize)%nat) as (a3 & E3 & N3 & C3); [exact Hfuel'|].
        rewrite E3. simpl. exists (a1 ++ a3).
        rewrite !app_assoc. split; [done|].
        rewrite !List.filter_app, !length_app, N1, N3, C1, C3.
        split; [|done].
        assert (Er : rounds (drop (i + batchSize) allSignatures) = [])
          by (apply rounds_drop_nil; lia).
        rewrite Er. simpl. by rewrite app_nil_r.
    + rewrite drop_ge by lia. simpl.
      exists []. rewrite !app_nil_r. by destruct w.
Qed.

Ltac run_fetch :=
  unfold fetchWalletData, finally, tryCatch, fetchBody, call, emit, liftResult,
    setLoading, setError, setTrades, setBalance, modifyUi;
  unfold mbind, M_bind, mret, M_ret; cbn -[batchLoop].

Lemma fetch_succeeds_trace w pubKey accountInfo allSignatures :
  Sdk.newPublicKey rpc (addressInput (ui w)) = Ok pubKey ->
  Sdk.getAccountInfo rpc pubKey = Ok accountInfo ->
  Sdk.getConfirmedSignaturesForAddress2 rpc pubKey 1000 = Ok allSignatures ->
  List.filter isRequestOrPause (addedEffects w (fetchWalletData h rpc w).2)
  = paced (rounds allSignatures)
  /\ length (List.filter isConsoleLine
               (addedEffects w (fetchWalletData h rpc w).2))
     = length (List.filter (rejects rpc) allSignatures).
Proof.
  intros E1 E2 E3. unfold addedEffects. run_fetch.
  rewrite E1. simpl. rewrite E2. simpl.
  assert (Hb : forall w0,
    exists b, (match accountInfo with
     | Some info =>
         modifyUi (fun s =>
           {| addressInput := addressInput s;
              balance := Some (Sdk.lamports info / LAMPORTS_PER_SOL)%float;
              trades := trades s; loading := loading s; error := error s |})
     | None =>
         modifyUi (fun s =>
           {| addressInput := addressInput s; balance := Some 0%float;
              trades := trades s; loading := loading s; error := error s |})
     end) w0
    = (Ok tt, {| ui := b; effects := effects w0 |})).
  { intros w0. destruct accountInfo; by eexists. }
  unfold modifyUi in Hb.
  match goal with
  | |- context [match accountInfo with Some _ => _ | None => _ end ?w0] =>
      destruct (Hb w0) as (b & Eb); rewrite Eb
  end.
  simpl. rewrite E3. simpl.
  destruct (Nat.eqb_spec (length allSignatures) 0) as [Hlen|Hlen]; simpl.
  - apply length_zero_iff_nil in Hlen. subst. simpl.
    rewrite <- app_assoc, drop_app_length. done.
  - match goal with
    | |- context [batchLoop h rpc ?l ?f 0%nat [] ?w0] =>
        destruct (batchLoop_trace l f 0%nat [] w0) as (a & Ea & Na & Ca); [lia|]
    end.
    rewrite Ea. simpl. rewrite drop_0 in *.
    rewrite <- !app_assoc, drop_app_length. simpl. done.
Qed.

(** The state a fetch ends in, whatever the requests return. *)
Lemma fetch_outcome w :
  (fetchWalletData h rpc w).1 = Ok tt
  /\ ui (fetchWalletData h rpc w).2 = batchedOutcome h rpc (addressInput (ui w))
  /\ effects w `prefix_of` effects (fetchWalletData h rpc w).2.
Proof.
  unfold batchedOutcome.
  destruct (Sdk.newPublicKey rpc (addressInput (ui w))) as [pubKey|e] eqn:E1.
  2:{ rewrite (WalletFacts.fetch_invalid_address h rpc w e E1). simpl.
      split; [done|]. split; [done|]. by eexists. }
  destruct (Sdk.getAccountInfo rpc pubKey) as [info|e] eqn:E2.
  2:{ rewrite (WalletFacts.fetch_account_rejected h rpc w pubKey e E1 E2). simpl.
      split; [done|]. split; [done|]. by eexists. }
  destruct (Sdk.getConfirmedSignaturesForAddress2 rpc pubKey 1000)
    as [sigs|e] eqn:E3.
  2:{ rewrite (WalletFacts.fetch_signatures_rejected h rpc w pubKey info e E1 E2 E3).
      simpl. split; [done|]. split; [done|]. by eexists. }
  destruct (WalletFacts.fetch_succeeds h rpc w pubKey info sigs E1 E2 E3)
    as (added & -> & _).
  simpl. split; [done|]. split; [done|]. by eexists.
Qed.

End Trace.

Lemma batchedOutcome_address h rpc address :
  addressInput (batchedOutcome h rpc address) = address.
Proof.
  unfold batchedOutcome.
  destruct (Sdk.newPublicKey rpc address) as [pubKey|]; [|done].
  destruct (Sdk.getAccountInfo rpc pubKey); [|done].
  by destruct (Sdk.getConfirmedSignaturesForAddress2 rpc pubKey 1000).
Qed.

Lemma paced_pauses rs :
  length (List.filter isPause (paced rs)) = (length rs - 1)%nat.
Proof.
  assert (Hreq : forall r, List.filter isPause (map requestOf r) = []).
  { intros r. by induction r as [|x r IH]. }
  induction rs as [|r rs IH]; [done|].
  destruct rs as [|r' rs].
  - simpl. by rewrite Hreq.
  - change (paced (r :: r' :: rs))
      with (map requestOf r ++ Sleep 100 :: paced (r' :: rs)).
    rewrite List.filter_app, Hreq.
    change (List.filter isPause (Sleep 100 :: paced (r' :: rs)))
      with (Sleep 100 :: List.filter isPause (paced (r' :: rs))).
    cbn [app length]. rewrite IH. cbn [length]. lia.
Qed.

Lemma filter_isPause_pacing (l : list Effect) :
  List.filter isPause (List.filter isRequestOrPause l) = List.filter isPause l.
Proof. induction l as [|e l IH]; [done|]. destruct e; simpl; by rewrite ?IH. Qed.

(** X1: a batched fetch never throws, and the component state it ends in is
    a function of the address in the input field and of the answers of the
    RPC alone: the failed state (no balance, no trades, the error's message)
    when the address decode, the balance request or the signature-list
    request fails, and otherwise the balance and the resolved records sorted
    newest first, with the loading flag off in both cases.  What the
    component showed before does not matter, the effects recorded so far
    are kept, and a second fetch with the same answers ends in the same
    state. *)
Theorem batched_fetch_outcome (h : Host) (rpc : Sdk.Rpc) (w : World) :
  (fetchWalletData h rpc w).1 = Ok tt
  /\ ui (fetchWalletData h rpc w).2 = batchedOutcome h rpc (addressInput (ui w))
  /\ effects w `prefix_of` effects (fetchWalletData h rpc w).2
  /\ ui (fetchWalletData h rpc (fetchWalletData h rpc w).2).2
     = ui (fetchWalletData h rpc w).2.
Proof.
  destruct (fetch_outcome h rpc w) as (Hok & Hui & Hpre).
  split; [done|]. split; [done|]. split; [done|].
  destruct (fetch_outcome h rpc (fetchWalletData h rpc w).2) as (_ & Hui' & _).
  by rewrite Hui', Hui, batchedOutcome_address.
Qed.

(** X2: when the address decodes and the balance and signature-list
    requests succeed, the body requests and pauses of a batched fetch are
    exactly these: the signatures are cut into consecutive rounds of 25 (the
    last one possibly shorter), every round requests the bodies of its
    signatures in order, and a pause of 100 ms stands between two rounds and
    nowhere else, so there is one pause fewer than rounds.  One console line
    is written per rejected body request. *)
Theorem batched_fetch_pacing (h : Host) (rpc : Sdk.Rpc) (w : World)
    (pubKey : PublicKey) (accountInfo : option Sdk.AccountInfo)
    (allSignatures : list Sdk.ConfirmedSignatureInfo)
    (Hkey : Sdk.newPublicKey rpc (addressInput (ui w)) = Ok pubKey)
    (Hinfo : Sdk.getAccountInfo rpc pubKey = Ok accountInfo)
    (Hsigs : Sdk.getConfirmedSignaturesForAddress2 rpc pubKey 1000
             = Ok allSignatures) :
  let added := addedEffects w (fetchWalletData h rpc w).2 in
  List.filter isRequestOrPause added = paced (rounds allSignatures)
  /\ concat (rounds allSignatures) = allSignatures
  /\ Forall (fun r => (1 <= length r <= batchSize)%nat) (rounds allSignatures)
  /\ length (List.filter isPause added)
     = (length (rounds allSignatures) - 1)%nat
  /\ length (List.filter isConsoleLine added)
     = length (List.filter (rejects rpc) allSignatures).
Proof.
  intros added.
  destruct (fetch_succeeds_trace h rpc w _ _ _ Hkey Hinfo Hsigs) as [Ht Hc].
  fold added in Ht, Hc.
  split; [exact Ht|]. split; [apply rounds_concat|].
  split; [apply rounds_sizes|]. split; [|exact Hc].
  by rewrite <- paced_pauses, <- Ht, filter_isPause_pacing.
Qed.

Lemma batched_fetch_pacing_witness :
  let added :=
    addedEffects (worldOf "wallet")
      (fetchWalletData exampleHost busyRpc (worldOf "wallet")).2 in
  map length (rounds (map signatureNo (seq 0 60))) = [25; 25; 10]%nat
  /\ length (List.filter isPause added) = 2%nat
  /\ length (List.filter isConsoleLine added) = 1%nat.
Proof.
  destruct (batched_fetch_pacing exampleHost busyRpc (worldOf "wallet")
              "wallet" _ _ eq_refl eq_refl eq_refl)
    as (_ & _ & _ & Hpauses & Hlines).
  split; [by vm_compute|]. split; [exact Hpauses|exact Hlines].
Defined.

End FetchOutcomeFacts.

(** ** The single-round fetch as a whole (WalletTracker.tsx) *)

Module SimpleFetchFacts.
Import WalletTrackerSimple.

Section Simple.
Context (h : Host) (rpc : Sdk.Rpc).

Lemma fetchTransaction_simple sig w :
  exists added,
    fetchTransaction h rpc sig w
    = (Ok (resolvedSimple h rpc sig),
       {| ui := ui w; effects := effects w ++ added |})
    /\ List.filter isNetworkCall added = [requestOf sig]
    /\ List.filter isPause added = []
    /\ length (List.filter isConsoleLine added)
       = length (List.filter (rejects rpc) [sig]).
Proof.
  unfold fetchTransaction, resolvedSimple, tryCatch, call, emit, liftResult.
  unfold mbind, M_bind, mret, M_ret. simpl. unfold rejects.
  destruct (Sdk.getParsedTransaction rpc (Sdk.signature sig)) as [[tx|]|e]; simpl.
  - by eexists [_].
  - by eexists [_].
  - eexists [_; _]. by rewrite <- app_assoc.
Qed.

Lemma promiseAll_simple batch w :
  exists added,
    promiseAll (fetchTransaction h rpc) batch w
    = (Ok (map (resolvedSimple h rpc) batch),
       {| ui := ui w; effects := effects w ++ added |})
    /\ List.filter isNetworkCall added = map requestOf batch
    /\ List.filter isPause added = []
    /\ length (List.filter isConsoleLine added)
       = length (List.filter (rejects rpc) batch).
Proof.
  unfold promiseAll. revert w.
  induction batch as [|sig batch IH]; intros w.
  - exists []. simpl. rewrite app_nil_r. by destruct w.
  - destruct (fetchTransaction_simple sig w) as (a1 & E1 & N1 & P1 & C1).
    cbn [mapM]. unfold mbind at 1, M_bind at 1. rewrite E1.
    destruct (IH {| ui := ui w; effects := effects w ++ a1 |})
      as (a2 & E2 & N2 & P2 & C2).
    unfold mbind at 1, M_bind at 1. rewrite E2. simpl.
    exists (a1 ++ a2). rewrite app_assoc. split; [done|].
    rewrite !List.filter_app, N1, N2, P1, P2, length_app, C1, C2.
    split; [done|]. split; [done|].
    by rewrite <- FetchOutcomeFacts.rejected_app.
Qed.

Ltac run_simple :=
  unfold fetchWalletData, finally, tryCatch, fetchBody, call, emit, liftResult,
    setLoading, setError, setTrades, setBalance, modifyUi;
  unfold mbind, M_bind, mret, M_ret; cbn -[promiseAll].

Lemma simple_succeeds w pubKey accountInfo signatures :
  Sdk.newPublicKey rpc (addressInput (ui w)) = Ok pubKey ->
  Sdk.getAccountInfo rpc pubKey = Ok accountInfo ->
  Sdk.getSignaturesForAddress rpc pubKey 10 = Ok signatures ->
  exists added,
    fetchWalletData h rpc w
    = (Ok tt,
       {| ui := {| addressInput := addressInput (ui w);
                   balance := Some (balanceOf accountInfo);
                   trades := omap (resolvedSimple h rpc) signatures;
                   loading := false; error := "" |};
          effects := effects w ++ added |})
    /\ List.filter isNetworkCall added
       = CallGetAccountInfo pubKey :: CallGetSignaturesForAddress pubKey 10
         :: map requestOf signatures
    /\ List.filter isPause added = []
    /\ length (List.filter isConsoleLine added)
       = length (List.filter (rejects rpc) signatures).
Proof.
  intros E1 E2 E3. run_simple. rewrite E1. simpl. rewrite E2. simpl.
  assert (Hb : forall w0,
    (match accountInfo with
     | Some info =>
         modifyUi (fun s =>
           {| addressInput := addressInput s;
              balance := Some (Sdk.lamports info / LAMPORTS_PER_SOL)%float;
              trades := trades s; loading := loading s; error := error s |})
     | None =>
         modifyUi (fun s =>
           {| addressInput := addressInput s; balance := Some 0%float;
              trades := trades s; loading := loading s; error := error s |})
     end) w0
    = (Ok tt, {| ui := {| addressInput := addressInput (ui w0);
                          balance := Some (balanceOf accountInfo);
                          trades := trades (ui w0); loading := loading (ui w0);
                          error := error (ui w0) |};
                 effects := effects w0 |})).
  { intros w0. by destruct accountInfo. }
  unfold modifyUi in Hb. rewrite Hb. simpl. rewrite E3. simpl.
  match goal with
  | |- context [promiseAll (fetchTransaction h rpc) signatures ?w0] =>
      destruct (promiseAll_simple signatures w0) as (a & Ea & Na & Pa & Ca)
  end.
  rewrite Ea. simpl. rewrite JsFacts.omap_id_map.
  exists ([CallGetAccountInfo pubKey; CallGetSignaturesForAddress pubKey 10] ++ a).
  rewrite <- !app_assoc. split; [done|].
  rewrite !List.filter_app, Na, Pa, length_app, Ca. done.
Qed.

Lemma simple_fails w e :
  (Sdk.newPublicKey rpc (addressInput (ui w)) = Throw e
   \/ (exists pubKey, Sdk.newPublicKey rpc (addressInput (ui w)) = Ok pubKey
         /\ Sdk.getAccountInfo rpc pubKey = Throw e)
   \/ (exists pubKey accountInfo,
         Sdk.newPublicKey rpc (addressInput (ui w)) = Ok pubKey
         /\ Sdk.getAccountInfo rpc pubKey = Ok accountInfo
         /\ Sdk.getSignaturesForAddress rpc pubKey 10 = Throw e)) ->
  exists added,
    fetchWalletData h rpc w
    = (Ok tt, {| ui := failedState (ui w) e; effects := effects w ++ added |})
    /\ List.filter isPause added = [].
Proof.
  intros [E1|[(pubKey & E1 & E2)|(pubKey & info & E1 & E2 & E3)]]; run_simple.
  - rewrite E1. simpl. by eexists [_].
  - rewrite E1. simpl. rewrite E2. simpl. eexists [_; _].
    by rewrite <- app_assoc.
  - rewrite E1. simpl. rewrite E2. simpl.
    destruct info; simpl; rewrite E3; simpl; eexists [_; _; _];
      by rewrite <- !app_assoc.
Qed.

Lemma simple_outcome w :
  (fetchWalletData h rpc w).1 = Ok tt
  /\ ui (fetchWalletData h rpc w).2 = simpleOutcome h rpc (addressInput (ui w))
  /\ List.filter isPause (addedEffects w (fetchWalletData h rpc w).2) = [].
Proof.
  unfold simpleOutcome, addedEffects.
  destruct (Sdk.newPublicKey rpc (addressInput (ui w))) as [pubKey|e] eqn:E1.
  2:{ destruct (simple_fails w e) as (a & -> & Pa); [by left|].
      simpl. by rewrite drop_app_length. }
  destruct (Sdk.getAccountInfo rpc pubKey) as [info|e] eqn:E2.
  2:{ destruct (simple_fails w e) as (a & -> & Pa);
        [right; left; by exists pubKey|].
      simpl. by rewrite drop_app_length. }
  destruct (Sdk.getSignaturesForAddress rpc pubKey 10) as [sigs|e] eqn:E3.
  2:{ destruct (simple_fails w e) as (a & -> & Pa);
        [right; right; by exists pubKey, info|].
      simpl. by rewrite drop_app_length. }
  destruct (simple_succeeds w pubKey info sigs E1 E2 E3)
    as (added & -> & _ & Pa & _).
  simpl. by rewrite drop_app_length.
Qed.

End Simple.

Lemma simpleOutcome_address h rpc address :
  addressInput (simpleOutcome h rpc address) = address.
Proof.
  unfold simpleOutcome.
  destruct (Sdk.newPublicKey rpc address) as [pubKey|]; [|done].
  destruct (Sdk.getAccountInfo rpc pubKey); [|done].
  by destruct (Sdk.getSignaturesForAddress rpc pubKey 10).
Qed.

(** X3: a single-round fetch never throws either, and the state it ends in
    is a function of the address and of the answers of the RPC alone: the
    failed state when the address decode, the balance request or the
    recent-signature request fails, and otherwise the balance and one record
    per resolved body.  It never pauses, and a second fetch with the same
    answers ends in the same state. *)
Theorem simple_fetch_outcome (h : Host) (rpc : Sdk.Rpc) (w : World) :
  (fetchWalletData h rpc w).1 = Ok tt
  /\ ui (fetchWalletData h rpc w).2 = simpleOutcome h rpc (addressInput (ui w))
  /\ List.filter isPause (addedEffects w (fetchWalletData h rpc w).2) = []
  /\ ui (fetchWalletData h rpc (fetchWalletData h rpc w).2).2
     = ui (fetchWalletData h rpc w).2.
Proof.
  destruct (simple_outcome h rpc w) as (Hok & Hui & Hpause).
  split; [done|]. split; [done|]. split; [done|].
  destruct (simple_outcome h rpc (fetchWalletData h rpc w).2) as (_ & Hui' & _).
  by rewrite Hui', Hui, simpleOutcome_address.
Qed.

(** X4: when the address decodes and the balance and recent-signature
    requests succeed, a single-round fetch asks for the balance, for the 10
    most recent signatures and then for one body per signature, in the order
    of the signature list; the trades are the signatures whose body
    resolved, in that same order and unsorted; the records carry no block
    time; and one console line is written per rejected body request. *)
Theorem simple_fetch_keeps_order (h : Host) (rpc : Sdk.Rpc) (w : World)
    (pubKey : PublicKey) (accountInfo : option Sdk.AccountInfo)
    (signatures : list Sdk.ConfirmedSignatureInfo)
    (Hkey : Sdk.newPublicKey rpc (addressInput (ui w)) = Ok pubKey)
    (Hinfo : Sdk.getAccountInfo rpc pubKey = Ok accountInfo)
    (Hsigs : Sdk.getSignaturesForAddress rpc pubKey 10 = Ok signatures) :
  let after := (fetchWalletData h rpc w).2 in
  map signature (trades (ui after))
  = map Sdk.signature (List.filter (resolves rpc) signatures)
  /\ List.filter isNetworkCall (addedEffects w after)
     = CallGetAccountInfo pubKey :: CallGetSignaturesForAddress pubKey 10
       :: map requestOf signatures
  /\ Forall (fun r => blockTime r = None) (trades (ui after))
  /\ length (List.filter isConsoleLine (addedEffects w after))
     = length (List.filter (rejects rpc) signatures).
Proof.
  intros after.
  destruct (simple_succeeds h rpc w pubKey accountInfo signatures Hkey Hinfo Hsigs)
    as (added & E & N & _ & C).
  unfold after, addedEffects. rewrite E. simpl. rewrite drop_app_length.
  split; [|split; [done|split; [|done]]].
  - clear. induction signatures as [|sig l IH]; [done|].
    cbn. unfold resolvedSimple, resolves in *.
    destruct (Sdk.getParsedTransaction rpc (Sdk.signature sig)) as [[tx|]|];
      cbn; by rewrite ?IH.
  - apply Forall_forall. intros r Hr.
    apply list_elem_of_omap in Hr as (sig & _ & Hres). unfold resolvedSimple in Hres.
    destruct (Sdk.getParsedTransaction rpc (Sdk.signature sig)) as [[tx|]|];
      try done.
    by injection Hres as <-.
Qed.

Lemma simple_fetch_keeps_order_witness :
  let after := (fetchWalletData exampleHost busyRpc (worldOf "wallet")).2 in
  map signature (trades (ui after))
  = ["sig0"; "sig1"; "sig2"; "sig4"; "sig6"; "sig7"; "sig8"; "sig9"]
  /\ length (List.filter isNetworkCall (addedEffects (worldOf "wallet") after))
     = 12%nat
  /\ length (List.filter isConsoleLine (addedEffects (worldOf "wallet") after))
     = 1%nat.
Proof.
  destruct (simple_fetch_keeps_order exampleHost busyRpc (worldOf "wallet")
              "wallet" _ _ eq_refl eq_refl eq_refl)
    as (Htrades & Hcalls & _ & Hlines).
  split; [exact Htrades|]. split; [by rewrite Hcalls|exact Hlines].
Defined.

End SimpleFetchFacts.

(** ** The amount pattern of the keyword classifier (UserSidebar.tsx) *)

Module AmountPatternFacts.
Import WalletTrackerHeuristic StringFacts.

(** A character that matches a word character under the [i] flag is a word
    character. *)
Lemma isWord_fold a c :
  isWord a = true -> Js.lowerAscii a = Js.lowerAscii c -> isWord c = true.
Proof.
  intros Ha Hc.
  assert (H : forall a c,
    (negb (isWord a) || negb (Ascii.eqb (Js.lowerAscii a) (Js.lowerAscii c))
     || isWord c) = true).
  { intros a0. apply forall_ascii. revert a0. apply forall_ascii.
    by vm_compute. }
  specialize (H a c). rewrite Ha, Hc, Ascii.eqb_refl in H. done.
Qed.

Section Sound.
Context {R : Type}.

Lemma star_sound p consumed l (k : list ascii -> list ascii -> option R) r :
  star p consumed l k = Some r ->
  exists m rest,
    l = m ++ rest /\ Forall (fun c => p c = true) m
    /\ k (consumed ++ m) rest = Some r.
Proof.
  revert consumed. induction l as [|c l IH]; intros consumed; simpl.
  - intros Hk. exists [], []. split_and!; [done|constructor|by rewrite app_nil_r].
  - destruct (p c) eqn:Hp.
    + destruct (star p (consumed ++ [c]) l k) as [r'|] eqn:Hs.
      * intros [= ->]. apply IH in Hs as (m & rest & -> & Hm & Hk).
        exists (c :: m), rest. rewrite <- app_assoc in Hk.
        split; [done|]. split; [|done]. by constructor.
      * intros Hk. exists [], (c :: l).
        split_and!; [done|constructor|by rewrite app_nil_r].
    + intros Hk. exists [], (c :: l).
      split_and!; [done|constructor|by rewrite app_nil_r].
Qed.

Lemma plus_sound p l (k : list ascii -> list ascii -> option R) r :
  plus p l k = Some r ->
  exists m rest,
    l = m ++ rest /\ m <> [] /\ Forall (fun c => p c = true) m
    /\ k m rest = Some r.
Proof.
  destruct l as [|c l]; simpl; [done|].
  destruct (p c) eqn:Hp; [|done].
  intros (m & rest & -> & Hm & Hk)%star_sound.
  exists (c :: m), rest. split; [done|]. split; [done|].
  split; [by constructor|done].
Qed.

Lemma optional_sound c l (k : list ascii -> list ascii -> option R) r :
  optional c l k = Some r ->
  exists m rest, l = m ++ rest /\ (m = [] \/ m = [c]) /\ k m rest = Some r.
Proof.
  destruct l as [|c' l]; simpl.
  - intros Hk. exists [], []. auto.
  - destruct (Ascii.eqb c c') eqn:Hc.
    + apply Ascii.eqb_eq in Hc as <-.
      destruct (k [c] l) as [r'|] eqn:Hk.
      * intros [= ->]. exists [c], l. auto.
      * intros Hk'. exists [], (c :: l). auto.
    + intros Hk. exists [], (c' :: l). auto.
Qed.
End Sound.

Lemma literal_sound lit l m rest :
  literal lit l = Some (m, rest) ->
  l = m ++ rest /\ length m = length lit
  /\ (Forall (fun c => isWord c = true) lit ->
      Forall (fun c => isWord c = true) m).
Proof.
  revert l m. induction lit as [|a lit IH]; intros l m; simpl.
  - intros [= <- <-]. split; [done|]. split; [done|]. by constructor.
  - destruct l as [|c l]; [done|].
    destruct (Ascii.eqb _ _) eqn:Hc; [|done].
    apply Ascii.eqb_eq in Hc.
    destruct (literal lit l) as [[m' rest']|] eqn:Hl; [|done].
    intros [= <- <-]. apply IH in Hl as (-> & Hlen & Hw).
    split; [done|]. split; [simpl; by rewrite Hlen|].
    intros [Ha Hlit]%Forall_cons. constructor; [|by apply Hw].
    by apply (isWord_fold a).
Qed.

Lemma tokenSymbol_sound l s rest :
  tokenSymbol l = Some (s, rest) ->
  l = s ++ rest /\ s <> [] /\ Forall (fun c => isWord c = true) s.
Proof.
  unfold tokenSymbol.
  set (alternatives := map list_ascii_of_string _).
  destruct (omap (fun lit => literal lit l) alternatives) as [|r others] eqn:Ho.
  - intros Hp. apply plus_sound in Hp as (m & rest' & -> & Hne & Hm & [= <- <-]).
    done.
  - intros [= ->].
    assert (Hin : (s, rest) ∈ omap (fun lit => literal lit l) alternatives)
      by (rewrite Ho; left).
    apply list_elem_of_omap in Hin as (lit & Hlit & Hs).
    apply literal_sound in Hs as (-> & Hlen & Hw).
    assert (Hall : Forall (fun lit =>
              lit <> [] /\ Forall (fun c => isWord c = true) lit) alternatives)
      by (unfold alternatives; repeat constructor; done).
    rewrite Forall_forall in Hall. destruct (Hall _ Hlit) as [Hne Hword].
    split; [done|]. split; [|by apply Hw].
    intros ->. destruct lit; simpl in Hlen; done.
Qed.

Lemma matchAmount_occurrence l amount sym rest :
  matchAmount l = Some (amount, sym, rest) ->
  amountOccurrence l amount sym rest /\ (length rest < length l)%nat.
Proof.
  unfold matchAmount. intros Hmatch.
  apply plus_sound in Hmatch as (d1 & r1 & -> & Hne & Hd1 & Hmatch).
  apply optional_sound in Hmatch as (dot & r2 & -> & Hdot & Hmatch).
  apply star_sound in Hmatch as (d2 & r3 & -> & Hd2 & Hmatch).
  apply star_sound in Hmatch as (ws & r4 & -> & Hws & Hmatch).
  destruct (tokenSymbol r4) as [[s r5]|] eqn:Hsym; [|done].
  injection Hmatch as <- <- <-.
  apply tokenSymbol_sound in Hsym as (-> & Hs & Hw).
  split.
  - exists d1, dot, d2, ws, s. simpl. done.
  - rewrite !length_app. destruct d1; [done|]. simpl. lia.
Qed.

(** X5: in a text of code units below 128, a match of the amount pattern
    at the head of the text is an occurrence of the pattern there: the text
    starts with one or more digits, at most one dot, further digits, white
    space and a non-empty run of word characters, followed by the text left
    over; the first capture is the digits with the dot and the second the
    word run.  The match consumes at least one character, and the text left
    over and both captures are again made of code units below 128. *)
Theorem matchAmount_sound (l : list ascii) (amount sym : string)
    (rest : list ascii) (Hascii : asciiChars l)
    (Hmatch : matchAmount l = Some (amount, sym, rest)) :
  amountOccurrence l amount sym rest
  /\ (length rest < length l)%nat
  /\ asciiChars rest /\ asciiText amount /\ asciiText sym.
Proof.
  destruct (matchAmount_occurrence l amount sym rest Hmatch) as [Hocc Hlt].
  split; [done|]. split; [done|].
  destruct Hocc as (d1 & dot & d2 & ws & s & -> & _ & _ & _ & _ & _ & _ & _
                      & -> & ->).
  unfold asciiText, asciiChars in *.
  rewrite !list_ascii_of_string_of_list_ascii.
  rewrite !Forall_app in Hascii. rewrite !Forall_app. tauto.
Qed.

Lemma matchAmount_sound_witness :
  amountOccurrence (list_ascii_of_string "1.5 SOL left") "1.5" "SOL"
    (list_ascii_of_string " left")
  /\ (length (list_ascii_of_string " left")
      < length (list_ascii_of_string "1.5 SOL left"))%nat
  /\ asciiChars (list_ascii_of_string " left")
  /\ asciiText "1.5" /\ asciiText "SOL".
Proof.
  apply matchAmount_sound; [|by vm_compute].
  unfold asciiChars. vm_compute. repeat constructor.
Defined.

(** A match consumes at least one character, so every step bound above
    the length of the text gives the same matches. *)
Lemma matchAllFrom_fuel fuel1 fuel2 l :
  (length l < fuel1)%nat -> (length l < fuel2)%nat ->
  matchAllFrom fuel1 l = matchAllFrom fuel2 l.
Proof.
  revert fuel2 l. induction fuel1 as [|fuel1 IH]; intros fuel2 l H1 H2; [lia|].
  destruct fuel2 as [|fuel2]; [lia|]. simpl.
  destruct (matchAmount l) as [[[amount sym] rest]|] eqn:Hm.
  - apply matchAmount_occurrence in Hm as [_ Hlt]. f_equal. apply IH; lia.
  - destruct l as [|c l]; [done|]. simpl in *. apply IH; lia.
Qed.

Lemma scanAmounts_occurrences l amount sym :
  (amount, sym) ∈ scanAmounts l ->
  exists before tail rest,
    l = before ++ tail /\ amountOccurrence tail amount sym rest.
Proof.
  unfold scanAmounts. generalize (S (length l)) as fuel. intros fuel. revert l.
  induction fuel as [|fuel IH]; intros l; simpl; [by intros ?%elem_of_nil|].
  destruct (matchAmount l) as [[[a s] rest]|] eqn:Hm.
  - intros [[= -> ->]|Hin]%elem_of_cons.
    + apply matchAmount_occurrence in Hm as [Hocc _]. by exists [], l, rest.
    + apply matchAmount_occurrence in Hm
        as [(d1 & dot & d2 & ws & s0 & -> & _) _].
      apply IH in Hin as (before & tail & rest' & -> & Hocc).
      exists (d1 ++ dot ++ d2 ++ ws ++ s0 ++ before), tail, rest'.
      by rewrite <- !app_assoc.
  - destruct l as [|c l]; [by intros ?%elem_of_nil|].
    intros (before & tail & rest' & -> & Hocc)%IH.
    by exists (c :: before), tail, rest'.
Qed.

Lemma scanAmounts_length l : (length (scanAmounts l) <= length l)%nat.
Proof.
  unfold scanAmounts. generalize (S (length l)) as fuel. intros fuel. revert l.
  induction fuel as [|fuel IH]; intros l; simpl; [lia|].
  destruct (matchAmount l) as [[[a s] rest]|] eqn:Hm.
  - apply matchAmount_occurrence in Hm as [_ Hlt]. simpl.
    specialize (IH rest). lia.
  - destruct l as [|c l]; simpl; [lia|]. specialize (IH l). lia.
Qed.

(** X7: when the joined log text is made of code units below 128, every
    pair of captures that [matchAll] reports for it is an occurrence of the
    amount pattern somewhere in that text, so an amount shown in a
    description is a digit run with at most one dot that stands in the logs,
    and its token a run of word characters that follows it there; and no
    more pairs are reported than the text has characters. *)
Theorem matchAll_occurrences (logs amount sym : string)
    (Hascii : asciiText logs)
    (Hin : (amount, sym) ∈ matchAll logs) :
  (exists before tail rest,
     list_ascii_of_string logs = before ++ tail
     /\ amountOccurrence tail amount sym rest)
  /\ asciiText amount /\ asciiText sym
  /\ (length (matchAll logs) <= String.length logs)%nat.
Proof.
  destruct (scanAmounts_occurrences _ _ _ Hin)
    as (before & tail & rest & Hlogs & Hocc).
  split; [by exists before, tail, rest|].
  assert (Htail : asciiChars tail).
  { unfold asciiText, asciiChars in *. rewrite Hlogs, Forall_app in Hascii.
    tauto. }
  destruct Hocc as (d1 & dot & d2 & ws & s & -> & _ & _ & _ & _ & _ & _ & _
                      & -> & ->).
  unfold asciiText, asciiChars in *.
  rewrite !list_ascii_of_string_of_list_ascii.
  rewrite !Forall_app in Htail. rewrite !Forall_app.
  split; [tauto|]. split; [tauto|].
  rewrite length_chars. apply scanAmounts_length.
Qed.

Lemma matchAll_occurrences_witness :
  (exists before tail rest,
     list_ascii_of_string "Swap 1.5 SOL for 42 USDC" = before ++ tail
     /\ amountOccurrence tail "42" "USDC" rest)
  /\ asciiText "42" /\ asciiText "USDC"
  /\ (length (matchAll "Swap 1.5 SOL for 42 USDC")
      <= String.length "Swap 1.5 SOL for 42 USDC")%nat.
Proof.
  apply matchAll_occurrences.
  - unfold asciiText, asciiChars. vm_compute. repeat constructor.
  - apply list_elem_of_In. vm_compute. right. by left.
Defined.

Lemma matchAmount_no_digit l :
  match l with c :: _ => isDigit c = false | [] => True end ->
  matchAmount l = None.
Proof.
  unfold matchAmount, plus. destruct l as [|c l]; [done|]. by intros ->.
Qed.

Lemma matchAllFrom_no_digit fuel l :
  Forall (fun c => isDigit c = false) l -> matchAllFrom fuel l = [].
Proof.
  revert l. induction fuel as [|fuel IH]; intros l Hl; [done|]. simpl.
  rewrite matchAmount_no_digit by (by destruct Hl).
  destruct Hl; [done|]. by apply IH.
Qed.

(** X8: when the joined log text holds no digit, no amount is found and the
    description is the plain label of the category of the text: [Token Swap]
    and [Token Transfer] for the two categories that would otherwise name
    amounts. *)
Theorem no_digit_plain_label (tx : Sdk.ParsedTransactionWithMeta)
    (logMessages : list string)
    (Hlogs : Sdk.meta tx ≫= Sdk.logMessages = Some logMessages)
    (Hnodigit : Forall (fun c => isDigit c = false)
                  (list_ascii_of_string (Js.join " " logMessages))) :
  matchAll (Js.join " " logMessages) = []
  /\ parseTransactionType tx
     = plainLabel (categoryOfLogs (Js.join " " logMessages)).
Proof.
  assert (Hnone : matchAll (Js.join " " logMessages) = [])
    by by apply matchAllFrom_no_digit.
  split; [done|].
  unfold parseTransactionType. rewrite Hlogs. cbv zeta. rewrite Hnone.
  unfold categoryOfLogs, keywordPriority. cbn [find fst snd].
  repeat (destruct (Js.includes (Js.join " " logMessages) _); [done|]).
  done.
Qed.

Lemma no_digit_plain_label_witness :
  parseTransactionType
    (txWithLogs ["Program log: Instruction: Transfer"; "Program log: Swap"])
  = "Token Swap".
Proof.
  apply (no_digit_plain_label
           (txWithLogs ["Program log: Instruction: Transfer"; "Program log: Swap"])
           ["Program log: Instruction: Transfer"; "Program log: Swap"] eq_refl).
  apply Forall_forall. intros c Hc. apply list_elem_of_In in Hc.
  vm_compute in Hc. by repeat (destruct Hc as [<-|Hc]).
Defined.

Section Greedy.
Context {R : Type}.

Lemma star_stop p consumed l (k : list ascii -> list ascii -> option R) :
  stopsAt p l -> star p consumed l k = k consumed l.
Proof. destruct l as [|c l]; simpl; [done|]. by intros ->. Qed.

(** When taking the whole run fails and giving back its last character
    succeeds, that is the match. *)
Lemma star_give_back p consumed m c rest
    (k : list ascii -> list ascii -> option R) r :
  Forall (fun x => p x = true) m -> p c = true -> stopsAt p rest ->
  k (consumed ++ m ++ [c]) rest = None ->
  k (consumed ++ m) (c :: rest) = Some r ->
  star p consumed (m ++ c :: rest) k = Some r.
Proof.
  intros Hm Hc Hrest. revert consumed.
  induction Hm as [|x m Hx Hm IH]; intros consumed Hfull Hback.
  - simpl in *. rewrite Hc, star_stop, Hfull by done.
    by rewrite app_nil_r in Hback.
  - simpl. rewrite Hx. rewrite (IH (consumed ++ [x])).
    + done.
    + by rewrite <- app_assoc.
    + by rewrite <- app_assoc.
Qed.
End Greedy.

Lemma literal_not_word lit c l :
  lit <> [] -> Forall (fun a => isWord a = true) lit -> isWord c = false ->
  literal lit (c :: l) = None.
Proof.
  destruct lit as [|a lit]; [done|]. intros _ [Ha _]%Forall_cons Hc. simpl.
  destruct (Ascii.eqb _ _) eqn:E; [|done]. apply Ascii.eqb_eq in E.
  rewrite (isWord_fold a c Ha E) in Hc. done.
Qed.

Lemma omap_all_none {A B} (f : A -> option B) (l : list A) :
  Forall (fun x => f x = None) l -> omap f l = [].
Proof. induction 1 as [|x l Hx Hl IH]; [done|]. cbn. by rewrite Hx. Qed.

Lemma no_literal c l :
  (isWord c = false \/ isDigit c = true) ->
  omap (fun lit => literal lit (c :: l))
    (map list_ascii_of_string ["SOL"; "USDC"; "USDT"; "RAY"; "SRM"]) = [].
Proof.
  intros Hc. apply omap_all_none.
  assert (H : forall a, (isWord a && negb (isDigit a)) = true ->
                        Ascii.eqb (Js.lowerAscii a) (Js.lowerAscii c) = false).
  { intros a Ha. apply andb_true_iff in Ha as [Hw Hd].
    destruct (Ascii.eqb _ _) eqn:E; [|done]. apply Ascii.eqb_eq in E.
    destruct Hc as [Hc|Hc].
    - by rewrite (isWord_fold a c Hw E) in Hc.
    - assert (Hall : forall c a,
        (negb (isDigit c) || negb (Ascii.eqb (Js.lowerAscii a) (Js.lowerAscii c))
         || isDigit a) = true).
      { intros c0. apply forall_ascii. revert c0. apply forall_ascii.
        by vm_compute. }
      specialize (Hall c a). rewrite Hc, E, Ascii.eqb_refl in Hall.
      simpl in Hall. by rewrite Hall in Hd. }
  repeat constructor; cbn [literal list_ascii_of_string]; by rewrite H.
Qed.

Lemma tokenSymbol_stop l : stopsAt isWord l -> tokenSymbol l = None.
Proof.
  destruct l as [|c l]; [done|]. intros Hc. simpl in Hc.
  unfold tokenSymbol. rewrite no_literal by by left. simpl. by rewrite Hc.
Qed.

Lemma tokenSymbol_digit c l :
  isDigit c = true -> stopsAt isWord l ->
  tokenSymbol (c :: l) = Some ([c], l).
Proof.
  intros Hc Hl. unfold tokenSymbol. rewrite no_literal by by right.
  assert (Hw : isWord c = true).
  { revert c Hc. 
    assert (H : forall c, (negb (isDigit c) || isWord c) = true)
      by (apply forall_ascii; by vm_compute).
    intros c Hc. specialize (H c). by rewrite Hc in H. }
  unfold plus. rewrite Hw. by rewrite star_stop.
Qed.

Lemma digit_class c :
  isDigit c = true -> isSpace c = false /\ Ascii.eqb "." c = false.
Proof.
  assert (H : forall c, (negb (isDigit c)
                         || (negb (isSpace c) && negb (Ascii.eqb "." c))) = true)
    by (apply forall_ascii; by vm_compute).
  intros Hc. specialize (H c). rewrite Hc in H. simpl in H.
  apply andb_true_iff in H as [H1 H2].
  by rewrite negb_true_iff in H1, H2.
Qed.

Lemma lone_number_match (digits : list ascii) (last : ascii) (rest : list ascii) :
  digits <> [] ->
  Forall (fun c => isDigit c = true) digits ->
  isDigit last = true ->
  match rest with
  | [] => True
  | c :: _ => c <> "."%char /\ isSpace c = false /\ isWord c = false
  end ->
  matchAmount (digits ++ last :: rest)
  = Some (string_of_list_ascii digits, string_of_list_ascii [last], rest).
Proof.
  intros Hsome Hdigits Hlast Hrest.
  assert (Hstop : stopsAt isDigit rest /\ stopsAt isSpace rest
                  /\ stopsAt isWord rest
                  /\ match rest with
                     | [] => True
                     | c :: _ => Ascii.eqb "." c = false
                     end).
  { destruct rest as [|c rest]; [done|]. destruct Hrest as (Hdot & Hsp & Hw).
    unfold stopsAt. split_and!; try done.
    - destruct (isDigit c) eqn:Hd; [|done].
      assert (H : forall c, (negb (isDigit c) || isWord c) = true)
        by (apply forall_ascii; by vm_compute).
      specialize (H c). by rewrite Hd, Hw in H.
    - destruct (Ascii.eqb_spec "." c); [by subst|done]. }
  destruct Hstop as (Hsd & Hss & Hsw & Hsdot).
  destruct (digit_class last Hlast) as [Hlsp Hldot].
  unfold matchAmount, plus.
  destruct digits as [|d digits]; [done|].
  apply Forall_cons in Hdigits as [Hd Hdigits].
  cbn [app]. rewrite Hd.
  apply star_give_back; try done.
  - (* the whole run: nothing is left for the token *)
    unfold optional.
    destruct rest as [|c rest].
    + simpl. done.
    + rewrite Hsdot. rewrite !star_stop by done.
      by rewrite tokenSymbol_stop.
  - (* the last digit given back: it becomes the token *)
    unfold optional. rewrite Hldot.
    cbn [star]. rewrite Hlast, Hlsp. rewrite !star_stop by done.
    rewrite tokenSymbol_stop by done.
    rewrite tokenSymbol_digit by done.
    by rewrite !app_nil_r.
Qed.

Lemma scanAmounts_skip before l :
  Forall (fun c => isDigit c = false) before ->
  scanAmounts (before ++ l) = scanAmounts l.
Proof.
  induction 1 as [|c before Hc Hbefore IH]; [done|].
  rewrite <- IH. unfold scanAmounts at 1. cbn [app matchAllFrom].
  rewrite matchAmount_no_digit by done.
  apply matchAllFrom_fuel; simpl; lia.
Qed.

(** X6: a number of two or more digits that no token follows is split by
    the amount pattern: the match gives back the last digit, which becomes
    the token.  So a transfer (no [Swap] in the logs) whose joined log text,
    made of code units below 128, has such a number as its first digits is
    described by [Transferred], the number without its last digit, and that
    digit as the token. *)
Theorem lone_number_split (tx : Sdk.ParsedTransactionWithMeta)
    (logMessages : list string) (before digits : list ascii) (last : ascii)
    (rest : list ascii)
    (Hlogs : Sdk.meta tx ≫= Sdk.logMessages = Some logMessages)
    (Hascii : asciiText (Js.join " " logMessages))
    (Htext : list_ascii_of_string (Js.join " " logMessages)
             = before ++ digits ++ last :: rest)
    (Hbefore : Forall (fun c => isDigit c = false) before)
    (Hsome : digits <> [])
    (Hdigits : Forall (fun c => isDigit c = true) digits)
    (Hlast : isDigit last = true)
    (Hrest : match rest with
             | [] => True
             | c :: _ => c <> "."%char /\ isSpace c = false /\ isWord c = false
             end)
    (Hswap : Js.includes (Js.join " " logMessages) "Swap" = false)
    (Htransfer : Js.includes (Js.join " " logMessages) "Transfer" = true) :
  matchAmount (digits ++ last :: rest)
  = Some (string_of_list_ascii digits, string_of_list_ascii [last], rest)
  /\ parseTransactionType tx
     = "Transferred " +:+ string_of_list_ascii digits
       +:+ " " +:+ string_of_list_ascii [last].
Proof.
  pose proof (lone_number_match digits last rest Hsome Hdigits Hlast Hrest)
    as Hm.
  split; [done|].
  unfold parseTransactionType. rewrite Hlogs. cbv zeta.
  rewrite Hswap, Htransfer.
  change (matchAll (Js.join " " logMessages))
    with (scanAmounts (list_ascii_of_string (Js.join " " logMessages))).
  rewrite Htext, scanAmounts_skip by done.
  unfold scanAmounts. cbn [matchAllFrom]. by rewrite Hm.
Qed.

Lemma lone_number_split_witness :
  matchAmount (list_ascii_of_string "42")
  = Some ("4", "2", [])
  /\ parseTransactionType (txWithLogs ["Program log: Transfer 42"])
     = "Transferred 4 2".
Proof.
  apply (lone_number_split (txWithLogs ["Program log: Transfer 42"])
           ["Program log: Transfer 42"]
           (list_ascii_of_string "Program log: Transfer ")
           (list_ascii_of_string "4") "2"%char [] eq_refl);
    try (by vm_compute); try done.
  - unfold asciiText, asciiChars. vm_compute. repeat constructor.
  - vm_compute. repeat constructor.
  - vm_compute. repeat constructor.
Defined.

End AmountPatternFacts.

(** ** Keywords and the swap filter *)

Module KeywordFacts.
Import WalletTrackerHeuristic WalletTrackerSwaps StringFacts.

Lemma keyword_noSpace (kc : string * Category) :
  kc ∈ keywordPriority -> noSpace kc.1 /\ kc.1 <> "".
Proof.
  unfold keywordPriority. intros Hkc.
  repeat (apply elem_of_cons in Hkc as [->|Hkc]);
    try (by apply elem_of_nil in Hkc);
    (split; [unfold noSpace; cbn; repeat constructor; discriminate|done]).
Qed.

(** X9: joining the log messages with spaces creates no keyword: each of
    the seven keywords occurs in the joined text exactly when it occurs in
    one of the messages, so a keyword cut in two by a message boundary is
    not found; and when no message holds a keyword the description is
    [Transaction]. *)
Theorem keywords_found_per_message (tx : Sdk.ParsedTransactionWithMeta)
    (logMessages : list string)
    (Hlogs : Sdk.meta tx ≫= Sdk.logMessages = Some logMessages) :
  Forall (fun kc =>
            Js.includes (Js.join " " logMessages) kc.1
            = existsb (fun msg => Js.includes msg kc.1) logMessages)
    keywordPriority
  /\ (Forall (fun msg =>
                Forall (fun kc => Js.includes msg kc.1 = false) keywordPriority)
        logMessages ->
      parseTransactionType tx = "Transaction").
Proof.
  assert (Hscan : Forall (fun kc =>
            Js.includes (Js.join " " logMessages) kc.1
            = existsb (fun msg => Js.includes msg kc.1) logMessages)
    keywordPriority).
  { apply Forall_forall. intros kc [Hns Hne]%keyword_noSpace.
    by apply includes_join. }
  split; [done|]. intros Hnone.
  assert (Hjoined : Forall (fun kc =>
            Js.includes (Js.join " " logMessages) kc.1 = false) keywordPriority).
  { apply Forall_forall. intros kc Hkc.
    rewrite (proj1 (Forall_forall _ _) Hscan kc Hkc).
    apply not_true_is_false. intros (msg & Hmsg & Hin)%existsb_exists.
    apply list_elem_of_In in Hmsg.
    pose proof (proj1 (Forall_forall _ _) Hnone msg Hmsg) as Hmsg'.
    rewrite (proj1 (Forall_forall _ _) Hmsg' kc Hkc) in Hin. done. }
  unfold parseTransactionType. rewrite Hlogs. cbv zeta.
  unfold keywordPriority in Hjoined.
  rewrite !Forall_cons in Hjoined. cbn [fst] in Hjoined.
  destruct Hjoined as (-> & -> & -> & -> & -> & -> & -> & _). done.
Qed.

Lemma keywords_found_per_message_witness :
  parseTransactionType (txWithLogs ["Program log: Sw"; "ap 1 SOL"])
  = "Transaction".
Proof.
  destruct (keywords_found_per_message
              (txWithLogs ["Program log: Sw"; "ap 1 SOL"])
              ["Program log: Sw"; "ap 1 SOL"] eq_refl) as [_ Hnone].
  apply Hnone. by vm_compute; repeat constructor.
Defined.

(** X11: every transaction that the keyword classifier puts in the swap
    category ([Swap] occurs in its joined log text) passes the swap filter
    of the first wallet tracker. *)
Theorem swap_filter_covers_classifier (tx : Sdk.ParsedTransactionWithMeta)
    (logMessages : list string)
    (Hlogs : Sdk.meta tx ≫= Sdk.logMessages = Some logMessages)
    (Hswap : Js.includes (Js.join " " logMessages) "Swap" = true) :
  isSwap (Some tx) = true
  /\ categoryOfLogs (Js.join " " logMessages) = SwapCategory.
Proof.
  split; [|unfold categoryOfLogs, keywordPriority; cbn [find fst];
           by rewrite Hswap].
  unfold isSwap. change (Some tx ≫= Sdk.meta) with (Sdk.meta tx). rewrite Hlogs.
  rewrite (includes_join "Swap") in Hswap;
    [|unfold noSpace; cbn; repeat constructor; discriminate|done].
  apply existsb_exists in Hswap as (msg & Hmsg & Hin).
  apply existsb_exists. exists msg. split; [done|].
  unfold mentionsSwap. apply includes_toLowerCase in Hin.
  change (Js.toLowerCase "Swap") with "swap" in Hin. by rewrite Hin.
Qed.

Lemma swap_filter_covers_classifier_witness :
  isSwap (Some (txWithLogs ["Program log: Instruction: Swap"])) = true
  /\ categoryOfLogs (Js.join " " ["Program log: Instruction: Swap"])
     = SwapCategory.
Proof.
  apply (swap_filter_covers_classifier
           (txWithLogs ["Program log: Instruction: Swap"])
           ["Program log: Instruction: Swap"] eq_refl).
  by vm_compute.
Defined.

End KeywordFacts.

(** ** The search box (UserSidebar.tsx) *)

Module SearchFacts.
Import UserSidebar StringFacts.

Lemma filter_empty_query (users : list User) :
  List.filter (matchesQuery "") users = users.
Proof.
  induction users as [|a l IH]; [done|]. simpl.
  assert (Ha : matchesQuery "" a = true).
  { unfold matchesQuery. by rewrite includes_empty. }
  by rewrite Ha, IH.
Qed.

(** X12: when the query and the user names and display names are made of
    code units below 128, the listed users are the users whose user name or
    display name, put in lower case, holds the query put in lower case; so a
    user is listed whenever one of the two names holds a text that differs
    from the query in letter case at most; putting the query in lower case
    makes no difference to the list; and the empty query lists every
    user. *)
Theorem search_semantics (users : list User) (searchQuery sortMetricId : string)
    (u : User) (Hquery : asciiText searchQuery)
    (Hnames : Forall (fun v => asciiText (username v) /\ asciiText (name v))
                users) :
  (u ∈ filteredAndSortedUsers users searchQuery sortMetricId
   <-> u ∈ users
       /\ (substringOf (Js.toLowerCase searchQuery) (Js.toLowerCase (username u))
           \/ substringOf (Js.toLowerCase searchQuery) (Js.toLowerCase (name u))))
  /\ (forall t, u ∈ users ->
        substringOf t (username u) \/ substringOf t (name u) ->
        Js.toLowerCase t = Js.toLowerCase searchQuery ->
        u ∈ filteredAndSortedUsers users searchQuery sortMetricId)
  /\ filteredAndSortedUsers users (Js.toLowerCase searchQuery) sortMetricId
     = filteredAndSortedUsers users searchQuery sortMetricId
  /\ filteredAndSortedUsers users "" sortMetricId ≡ₚ users.
Proof.
  assert (Hlisted : u ∈ filteredAndSortedUsers users searchQuery sortMetricId
   <-> u ∈ users
       /\ (substringOf (Js.toLowerCase searchQuery) (Js.toLowerCase (username u))
           \/ substringOf (Js.toLowerCase searchQuery)
                (Js.toLowerCase (name u)))).
  { unfold filteredAndSortedUsers.
    rewrite JsFacts.sort_Permutation, !list_elem_of_In, filter_In.
    unfold matchesQuery. by rewrite orb_true_iff, !includes_spec. }
  split; [done|]. split; [|split].
  - intros t Hu Hin Ht. apply Hlisted. split; [done|]. rewrite <- Ht.
    rewrite <- !includes_spec in Hin |- *.
    destruct Hin as [Hin|Hin]; [left|right]; by apply includes_toLowerCase.
  - unfold filteredAndSortedUsers. f_equal. apply filter_ext. intros a.
    unfold matchesQuery. by rewrite toLowerCase_idemp.
  - unfold filteredAndSortedUsers.
    by rewrite JsFacts.sort_Permutation, filter_empty_query.
Qed.

Lemma search_semantics_witness :
  let coder :=
    {| id := 7; username := "coolcoder42"; name := "Cool Coder";
       avatarUrl := ""; rank := None; metrics := {[ "m" := 3 ]} |} in
  (coder ∈ filteredAndSortedUsers (coder :: exampleUsers) "cOOL c" "m"
   <-> coder ∈ coder :: exampleUsers
       /\ (substringOf "cool c" (Js.toLowerCase (username coder))
           \/ substringOf "cool c" (Js.toLowerCase (name coder))))
  /\ coder ∈ filteredAndSortedUsers (coder :: exampleUsers) "cOOL c" "m"
  /\ map id (filteredAndSortedUsers (coder :: exampleUsers) "cOOL c" "m") = [7].
Proof.
  intros coder.
  assert (Hquery : asciiText "cOOL c")
    by (unfold asciiText, asciiChars; vm_compute; repeat constructor).
  assert (Hnames : Forall (fun v => asciiText (username v) /\ asciiText (name v))
                     (coder :: exampleUsers))
    by (unfold asciiText, asciiChars; vm_compute; repeat constructor).
  destruct (search_semantics (coder :: exampleUsers) "cOOL c" "m" coder
              Hquery Hnames) as (Hiff & Hcase & _).
  split; [exact Hiff|]. split; [|by vm_compute].
  apply (Hcase "Cool C"); [left|right; by exists "", "oder"|reflexivity].
Defined.

Lemma descending_filter {A} (key : A -> Z) (p : A -> bool) l :
  Js.descendingBy key l -> Js.descendingBy key (List.filter p l).
Proof.
  unfold Js.descendingBy. induction 1 as [|x l Hl IH Hx]; simpl; [constructor|].
  destruct (p x); [|done]. constructor; [done|].
  rewrite Forall_forall in *. intros y Hy%list_elem_of_In%filter_In.
  apply Hx, list_elem_of_In. tauto.
Qed.

Lemma filter_comm {A} (p q : A -> bool) l :
  List.filter p (List.filter q l) = List.filter q (List.filter p l).
Proof.
  induction l as [|x l IH]; simpl; [done|].
  destruct (p x) eqn:Hp, (q x) eqn:Hq; simpl; rewrite ?Hp, ?Hq, ?IH; done.
Qed.

Lemma filter_sublist {A} (p : A -> bool) l : List.filter p l `sublist_of` l.
Proof.
  induction l as [|x l IH]; simpl; [constructor|].
  destruct (p x); by constructor.
Qed.

(** X13: a query only removes rows: filtering the users and sorting what is
    left gives the same sequence as sorting all users and then removing the
    rows that do not match, so the users that stay listed keep the relative
    order they have in the unfiltered list. *)
Theorem search_keeps_order (users : list User)
    (searchQuery sortMetricId : string) :
  filteredAndSortedUsers users searchQuery sortMetricId
  = List.filter (matchesQuery searchQuery)
      (filteredAndSortedUsers users "" sortMetricId)
  /\ filteredAndSortedUsers users searchQuery sortMetricId
     `sublist_of` filteredAndSortedUsers users "" sortMetricId.
Proof.
  assert (Heq : filteredAndSortedUsers users searchQuery sortMetricId
                = List.filter (matchesQuery searchQuery)
                    (filteredAndSortedUsers users "" sortMetricId)).
  { unfold filteredAndSortedUsers. rewrite filter_empty_query. symmetry.
    apply (JsFacts.sort_unique _ (metricOrZero sortMetricId)).
    - intros a b. reflexivity.
    - apply descending_filter.
      apply (JsFacts.sort_descending _ (metricOrZero sortMetricId)).
      intros a b. reflexivity.
    - intros v. unfold Js.withKey. rewrite filter_comm.
      pose proof (JsFacts.sort_withKey (byMetricDesc sortMetricId)
                    (metricOrZero sortMetricId) (fun a b => eq_refl) v users)
        as Hkeep.
      unfold Js.withKey in Hkeep. rewrite Hkeep. apply filter_comm. }
  split; [done|]. rewrite Heq. apply filter_sublist.
Qed.

End SearchFacts.

(** ** The popovers (UserSidebar.tsx) *)

Module PopoverFacts.
Import UserSidebar UserPopover.

Lemma step_knownMetrics s s' : step s s' -> knownMetrics s -> knownMetrics s'.
Proof.
  intros Hstep [Hsel Hact]. destruct Hstep as [metric checked Hm _|metric Hm _|o].
  - destruct checked; unfold onCheckedChange; simpl.
    + split; [|done]. apply Forall_app. split; [done|]. by constructor.
    + destruct (negb _); [|done]. split; [|done]. simpl.
      rewrite Forall_forall in *. intros d Hd%list_elem_of_In%filter_In.
      apply Hsel, list_elem_of_In. tauto.
    + destruct (negb _); [|done]. split; [|done]. simpl.
      rewrite Forall_forall in *. intros d Hd%list_elem_of_In%filter_In.
      apply Hsel, list_elem_of_In. tauto.
  - done.
  - done.
Qed.

Lemma reachable_knownMetrics s : reachable s -> knownMetrics s.
Proof.
  unfold reachable. revert s. apply rtc_ind_r.
  - split; [|by vm_compute; left]. repeat constructor.
  - intros s s' _ Hstep IH. by eapply step_knownMetrics.
Qed.

(** X14: in every reachable popover state the display set is not empty, and
    every displayed metric and the sort metric are metrics of
    [METRIC_CATEGORIES]. *)
Theorem popover_known_metrics (s : Selection) (Hs : reachable s) :
  selectedDimensions s <> []
  /\ Forall (fun d => d ∈ ALL_METRICS) (selectedDimensions s)
  /\ activeSortDimension s ∈ ALL_METRICS.
Proof.
  destruct (reachable_knownMetrics s Hs) as [Hsel Hact].
  split; [|done].
  pose proof (UserSidebarFacts.reachable_sortMetricSelected s Hs) as Hin.
  unfold sortMetricSelected in Hin. intros Hnil. rewrite Hnil in Hin.
  by apply elem_of_nil in Hin.
Qed.

Lemma popover_known_metrics_witness :
  selectedDimensions twoDisplayed <> []
  /\ Forall (fun d => d ∈ ALL_METRICS) (selectedDimensions twoDisplayed)
  /\ activeSortDimension twoDisplayed ∈ ALL_METRICS.
Proof.
  apply (popover_known_metrics twoDisplayed UserSidebarFacts.reachable_twoDisplayed).
Defined.

Lemma filter_other (metric : string) (l : list string) :
  metric ∉ l -> List.filter (fun d => negb (String.eqb d metric)) l = l.
Proof.
  induction l as [|x l IH]; [done|].
  intros [Hx Hl]%not_elem_of_cons. simpl.
  destruct (String.eqb_spec x metric) as [->|_]; [done|]. simpl. by rewrite IH.
Qed.

(** X15: checking a metric that is not displayed and then unchecking it
    gives back the state before, whether the second event reports [false]
    or [indeterminate]. *)
Theorem check_then_uncheck (s : Selection) (metric : string)
    (Hnew : isSelected s metric = false)
    (Hsort : metric <> activeSortDimension s) :
  onCheckedChange metric Unchecked (onCheckedChange metric Checked s) = s
  /\ onCheckedChange metric Indeterminate (onCheckedChange metric Checked s) = s.
Proof.
  assert (Hin : metric ∉ selectedDimensions s).
  { intros Hin%UserSidebarFacts.isSelected_elem_of. congruence. }
  unfold onCheckedChange. simpl.
  destruct (String.eqb_spec metric (activeSortDimension s)) as [|_]; [done|].
  simpl. rewrite List.filter_app, filter_other by done. simpl.
  rewrite String.eqb_refl. simpl. rewrite app_nil_r. by destruct s.
Qed.

Lemma check_then_uncheck_witness :
  onCheckedChange "revenue" Unchecked
    (onCheckedChange "revenue" Checked initialSelection)
  = initialSelection
  /\ onCheckedChange "revenue" Indeterminate
       (onCheckedChange "revenue" Checked initialSelection)
     = initialSelection.
Proof.
  apply (check_then_uncheck initialSelection "revenue"); [reflexivity|].
  discriminate.
Defined.

Lemma split_four {A} (p1 p2 p3 p4 : A -> bool) (l : list A) :
  Forall (fun x => p1 x || p2 x || p3 x || p4 x = true) l ->
  Forall (fun x => p1 x && (p2 x || p3 x || p4 x) = false) l ->
  Forall (fun x => p2 x && (p3 x || p4 x) = false) l ->
  Forall (fun x => p3 x && p4 x = false) l ->
  List.filter p1 l ++ List.filter p2 l ++ List.filter p3 l ++ List.filter p4 l
  ≡ₚ l.
Proof.
  induction l as [|x l IH]; [done|].
  intros [H0 Hl0]%Forall_cons [H1 Hl1]%Forall_cons [H2 Hl2]%Forall_cons
    [H3 Hl3]%Forall_cons.
  specialize (IH Hl0 Hl1 Hl2 Hl3). simpl.
  destruct (p1 x), (p2 x), (p3 x), (p4 x); try discriminate; simpl.
  - by rewrite IH.
  - rewrite <- Permutation_middle. by rewrite IH.
  - rewrite <- Permutation_middle, <- Permutation_middle. by rewrite IH.
  - rewrite <- Permutation_middle, <- Permutation_middle, <- Permutation_middle.
    by rewrite IH.
Qed.

Lemma category_split (l : list string) :
  Forall (fun d => d ∈ ALL_METRICS) l ->
  mbind (fun category : string * list string =>
           List.filter (fun d => Js.arrayIncludes category.2 d) l)
    METRIC_CATEGORIES ≡ₚ l.
Proof.
  intros Hl. cbn. rewrite app_nil_r.
  apply split_four; (eapply Forall_impl; [exact Hl|]); intros d Hd; cbn beta;
    unfold ALL_METRICS, METRIC_CATEGORIES in Hd; cbn in Hd;
    repeat (apply elem_of_cons in Hd as [->|Hd]);
    try (by apply elem_of_nil in Hd); by vm_compute.
Qed.

(** X16: in every reachable state the popover of a user shows the displayed
    metrics and nothing else: the metric lists of the four categories
    together are a rearrangement of the display set, at least one category
    is rendered, and a category is rendered exactly when one of its metrics
    is displayed. *)
Theorem popover_shows_displayed_metrics (s : Selection) (Hs : reachable s) :
  mbind (categoryMetrics s) METRIC_CATEGORIES ≡ₚ selectedDimensions s
  /\ renderedCategories s <> []
  /\ (forall category, category ∈ renderedCategories s <->
        category ∈ METRIC_CATEGORIES
        /\ exists d, d ∈ selectedDimensions s /\ d ∈ category.2).
Proof.
  destruct (reachable_knownMetrics s Hs) as [Hknown _].
  assert (Hrendered : forall category, category ∈ renderedCategories s <->
            category ∈ METRIC_CATEGORIES
            /\ exists d, d ∈ selectedDimensions s /\ d ∈ category.2).
  { intros category. unfold renderedCategories.
    rewrite !list_elem_of_In, filter_In, <- !list_elem_of_In.
    apply and_iff_compat_l. unfold categoryMetrics.
    rewrite negb_true_iff, Nat.eqb_neq. split.
    - destruct (List.filter _ _) as [|d rest] eqn:Hf; [done|]. intros _.
      assert (Hd : In d (List.filter
                (fun d => Js.arrayIncludes category.2 d) (selectedDimensions s)))
        by (rewrite Hf; left; done).
      apply filter_In in Hd as [Hd Hin]. exists d.
      split; [by apply list_elem_of_In|].
      unfold Js.arrayIncludes in Hin. apply existsb_exists in Hin as (y & Hy & Heq).
      apply String.eqb_eq in Heq as ->. by apply list_elem_of_In.
    - intros (d & Hd & Hin) Hlen.
      assert (Hd' : In d (List.filter
                (fun d => Js.arrayIncludes category.2 d) (selectedDimensions s))).
      { apply filter_In. split; [by apply list_elem_of_In|].
        unfold Js.arrayIncludes. apply existsb_exists. exists d.
        split; [by apply list_elem_of_In|apply String.eqb_refl]. }
      destruct (List.filter _ _); [done|discriminate]. }
  split; [by apply category_split|]. split; [|done].
  pose proof (UserSidebarFacts.reachable_sortMetricSelected s Hs) as Hsort.
  unfold sortMetricSelected in Hsort.
  destruct (selectedDimensions s) as [|d rest] eqn:Hsel;
    [by apply elem_of_nil in Hsort|].
  apply Forall_cons in Hknown as [Hd _].
  unfold ALL_METRICS in Hd. apply list_elem_of_bind in Hd as (category & Hd & Hc).
  intros Hnil.
  assert (Hin : category ∈ renderedCategories s).
  { apply Hrendered. split; [done|]. exists d. split; [left|done]. }
  rewrite Hnil in Hin. by apply elem_of_nil in Hin.
Qed.

Lemma popover_shows_displayed_metrics_witness :
  mbind (categoryMetrics twoDisplayed) METRIC_CATEGORIES
    ≡ₚ selectedDimensions twoDisplayed
  /\ renderedCategories twoDisplayed <> []
  /\ map fst (renderedCategories twoDisplayed) = ["Engagement"; "Revenue"].
Proof.
  destruct (popover_shows_displayed_metrics twoDisplayed
              UserSidebarFacts.reachable_twoDisplayed) as (Hperm & Hne & _).
  split; [exact Hperm|]. split; [exact Hne|reflexivity].
Defined.

End PopoverFacts.

(** ** The rows of the user list (UserSidebar.tsx) *)

Module UserRowFacts.
Import UserSidebar UserRow.

(** X17: the medals go to the first three rows of the list as it is shown:
    the row at index 0 gets the gold one, the rows at the indices 1 and 2
    the silver and the bronze one, and no later row gets a medal, whatever
    the query and the sort metric. *)
Theorem podium (users : list User) (searchQuery sortMetricId : string) :
  map rankBadge (rankedUsers users searchQuery sortMetricId)
  = map (fun i => medals !! i)
      (seq 0 (length (rankedUsers users searchQuery sortMetricId))).
Proof.
  unfold rankedUsers.
  generalize (filteredAndSortedUsers users searchQuery sortMetricId). intros l.
  apply list_eq. intros i.
  rewrite !list_lookup_fmap, list_lookup_imap, length_imap.
  destruct (l !! i) as [u|] eqn:Hu.
  - rewrite lookup_seq_lt by (by eapply lookup_lt_Some). simpl. f_equal.
    unfold rankBadge, withRank. cbn [rank].
    destruct i as [|[|[|i]]]; [done..|].
    destruct (Z.leb_spec (Z.of_nat (S (S (S i))) + 1) 3); [lia|done].
  - rewrite lookup_seq_ge by (by apply lookup_ge_None). done.
Qed.

(** X18: in every reachable state at most one icon stands in front of the
    value of the sort metric, and none exactly when the list is sorted by
    [retention], the one metric without an icon. *)
Theorem sort_icon (s : Selection) (Hs : reachable s) :
  (length (sortIcons (activeSortDimension s)) <= 1)%nat
  /\ (sortIcons (activeSortDimension s) = []
      <-> activeSortDimension s = "retention").
Proof.
  destruct (PopoverFacts.reachable_knownMetrics s Hs) as [_ Hact].
  unfold ALL_METRICS, METRIC_CATEGORIES in Hact. cbn in Hact.
  repeat (apply elem_of_cons in Hact as [->|Hact]);
    try (by apply elem_of_nil in Hact);
    (split; [vm_compute; lia|]); split; by vm_compute.
Qed.

Lemma sort_icon_witness :
  sortIcons (activeSortDimension twoDisplayed) = [ClockIcon]
  /\ (sortIcons (activeSortDimension twoDisplayed) = []
      <-> activeSortDimension twoDisplayed = "retention").
Proof.
  split; [reflexivity|].
  apply (sort_icon twoDisplayed UserSidebarFacts.reachable_twoDisplayed).
Defined.

End UserRowFacts.

(** ** What is on the screen after a fetch (part_001) *)

Module WalletViewFacts.
Import WalletTrackerBatched WalletView.

(** X19: after a batched fetch the spinner is gone and the button is
    enabled unless the input is empty.  When the fetch failed, neither the
    balance card nor the transaction list is rendered, and the error banner
    shows the error's message, unless that message is empty, in which case
    nothing at all is rendered below the input.  When it did not fail, no
    error banner is rendered, the balance card shows the lamports of the
    account divided by [LAMPORTS_PER_SOL] with four decimals ([0.0000 SOL]
    for an address without an account, [2.5000 SOL] for 2500000000
    lamports), and the transaction list shows the resolved records newest
    first, or is not rendered when there is none. *)
Theorem view_after_fetch (h : Host) (rpc : Sdk.Rpc) (w : World) :
  let v := render h (ui (fetchWalletData h rpc w).2) in
  spinner v = false
  /\ buttonDisabled v = String.eqb (addressInput (ui w)) ""
  /\ match abortingError rpc (addressInput (ui w)) with
     | Some e =>
         balanceCard v = None /\ tradeList v = None
         /\ errorBanner v
            = (if String.eqb (message e) "" then None else Some (message e))
     | None =>
         errorBanner v = None
         /\ (forall pubKey accountInfo allSignatures,
               Sdk.newPublicKey rpc (addressInput (ui w)) = Ok pubKey ->
               Sdk.getAccountInfo rpc pubKey = Ok accountInfo ->
               Sdk.getConfirmedSignaturesForAddress2 rpc pubKey 1000
               = Ok allSignatures ->
               balanceCard v
               = Some (JsNumber.toFixed h (balanceOf accountInfo) 4 +:+ " SOL")
               /\ (accountInfo = None -> balanceCard v = Some "0.0000 SOL")
               /\ (accountInfo = Some {| Sdk.lamports := 2500000000%float |} ->
                   balanceCard v = Some "2.5000 SOL")
               /\ tradeList v
                  = match Js.sort byBlockTimeDesc
                            (omap (resolved h rpc) allSignatures) with
                    | [] => None
                    | shown => Some shown
                    end)
     end.
Proof.
  intros v. unfold v.
  destruct (FetchOutcomeFacts.fetch_outcome h rpc w) as (_ & -> & _).
  unfold batchedOutcome, abortingError, render.
  destruct (Sdk.newPublicKey rpc (addressInput (ui w))) as [pubKey|e] eqn:E1;
    [|done].
  destruct (Sdk.getAccountInfo rpc pubKey) as [info|e] eqn:E2; [|done].
  destruct (Sdk.getConfirmedSignaturesForAddress2 rpc pubKey 1000)
    as [sigs|e] eqn:E3; [|done].
  cbn. split; [done|]. split; [done|]. split; [done|].
  intros pubKey' accountInfo allSignatures [= <-] Hinfo Hsigs.
  rewrite E2 in Hinfo. injection Hinfo as <-.
  rewrite E3 in Hsigs. injection Hsigs as <-.
  split; [done|]. split; [by intros ->; vm_compute|].
  split; [by intros ->; vm_compute|].
  by destruct (Js.sort byBlockTimeDesc (omap (resolved h rpc) sigs)).
Qed.

End WalletViewFacts.
